(** * wastickers: sticker-pack partitioning, building, validation and loading

    A shallow embedding of the Python sources

      - [_wastickers.py]          ([_chunks], [preprocess], [_square],
                                   [_recursive_remove], [clean],
                                   [_is_snake_char], [_to_snake_case])
      - [wastickers/__init__.py]  ([StickerPack.check], [StickerPack.save],
                                   [_squarify])
      - [wastickers/load.py]      ([check_valid_wastickers], [from_wastickers],
                                   [from_contents])
      - [wasticker.py]            ([scale], [square])
      - [wastickers.py]           (the first [_to_snake_case])

    Python exceptions become the [Raise] constructor of [result]; mutable
    objects and the file system are threaded explicitly. The imaging library
    (PIL), the text codec and the zip container are outside the repository:
    PIL and the codec are an interface record [Platform] whose documented
    behaviour is collected in [PlatformLaws]; a zip file is the ordered list
    of its entries. *)

From stdpp Require Import gmap strings list sorting pretty.
From Stdlib Require Import Ascii ZArith QArith Qround Lia.

Local Close Scope Q_scope.
Local Open Scope Z_scope.
Local Open Scope nat_scope.

(** ** Exceptions and results *)

(** The assertion messages of [check_valid_wastickers], one constructor per
    [assert] statement, with the values interpolated into the message. *)
Inductive Reason :=
| BadExtension                         (* "Extension must be .wastickers" *)
| NotZipFile (filepath : string)       (* "{filepath} is not a zip file" *)
| PngCount                             (* "Must have exactly one .png file" *)
| TrayNotFound                         (* "tray.png not found" *)
| TrayNotPng                           (* "tray.png must be a PNG file" *)
| TrayWrongSize (w h : Z)              (* "tray.png must be size 96x96 ..." *)
| TrayTooLarge                         (* "tray.png must be smaller than 50KB" *)
| WebpCount                            (* "Must have 3 to 30 .webp files" *)
| WebpNotWebp (name : string)          (* "{webpfile} must be a WEBP file" *)
| WebpWrongSize (name : string) (w h : Z)
| WebpTooLarge (name : string)         (* "... must be smaller than 100KB" *)
| NoTitleFile                          (* "Must have title.txt file" *)
| NoAuthorFile.                        (* "Must have author.txt file" *)

(** The messages of [InvalidStickerPack] raised by [StickerPack.check]. *)
Inductive PackError :=
| MissingTitle                         (* "Missing title." *)
| MissingAuthor                        (* "Missing author." *)
| BadStickerCount (count : nat).       (* "Must have 3 to 30 sticker images..." *)

Inductive exn :=
| InvalidStickerPack (e : PackError)
| AssertionError (r : Reason)
| InvalidWastickersFile (r : Reason)
| FileExistsError (path : string)
| FileNotFoundError (path : string)
| BadZipFile
| ZeroDivisionError
| ValueError
| IndexError
| KeyError (name : string)
| UnidentifiedImageError
| UnicodeDecodeError.

Inductive result (A : Type) :=
| Ok (a : A)
| Raise (e : exn).
Arguments Ok {A} a.
Arguments Raise {A} e.

#[global] Instance result_ret : MRet result := fun A a => Ok a.
#[global] Instance result_bind : MBind result := fun A B f m =>
  match m with Ok a => f a | Raise e => Raise e end.

#[global] Instance Reason_eq_dec : EqDecision Reason.
Proof. solve_decision. Defined.
#[global] Instance PackError_eq_dec : EqDecision PackError.
Proof. solve_decision. Defined.
#[global] Instance exn_eq_dec : EqDecision exn.
Proof. solve_decision. Defined.

(** ** Python strings

    A Python [str] is a Rocq [string]; the helpers below go through its
    list of characters. *)

Definition chars (s : string) : list ascii := String.list_ascii_of_string s.
Definition of_chars (l : list ascii) : string := String.string_of_list_ascii l.

(** [s.endswith(sfx)] and [s.startswith(p)] *)
Definition endswith (s sfx : string) : bool :=
  bool_decide (chars sfx `suffix_of` chars s).
Definition startswith (s p : string) : bool :=
  bool_decide (chars p `prefix_of` chars s).

(** [c.lower()] on the ASCII letters, which is all that a comparison with
    the ASCII text ".png" can observe. *)
Definition lower_char (c : ascii) : ascii :=
  let n := Ascii.nat_of_ascii c in
  if (65 <=? n) && (n <=? 90) then Ascii.ascii_of_nat (n + 32) else c.
Definition lower (s : string) : string := of_chars (map lower_char (chars s)).

(** [x in s] for strings: [x] occurs as a contiguous block of [s]. *)
Fixpoint contains_chars (s x : list ascii) : bool :=
  bool_decide (x `prefix_of` s) ||
  match s with
  | [] => false
  | _ :: s' => contains_chars s' x
  end.
Definition contains (s x : string) : bool := contains_chars (chars s) (chars x).

(** [a or b] on strings: the empty string is falsy. *)
Definition str_or (a b : string) : string :=
  match a with EmptyString => b | _ => a end.

(** [l.rfind(c)]: index of the last occurrence. *)
Fixpoint rfind (c : ascii) (l : list ascii) : option nat :=
  match l with
  | [] => None
  | x :: l' =>
      match rfind c l' with
      | Some i => Some (S i)
      | None => if decide (x = c) then Some 0 else None
      end
  end.

(** ** pathlib

    A path is its text. [path_name] is the final component, [path_suffix]
    and [path_stem] follow pathlib's
    [i = name.rfind('.'); if 0 < i < len(name) - 1: ...]. *)
Definition path_name (p : string) : string :=
  match rfind "/"%char (chars p) with
  | Some i => of_chars (drop (S i) (chars p))
  | None => p
  end.

Definition path_suffix (p : string) : string :=
  let name := chars (path_name p) in
  match rfind "."%char name with
  | Some i =>
      if (0 <? i) && (i <? length name - 1) then of_chars (drop i name) else EmptyString
  | None => EmptyString
  end.

Definition path_stem (p : string) : string :=
  let name := chars (path_name p) in
  match rfind "."%char name with
  | Some i =>
      if (0 <? i) && (i <? length name - 1) then of_chars (take i name)
      else path_name p
  | None => path_name p
  end.

(** [folder / file_path] *)
Definition path_join (folder file_path : string) : string :=
  if startswith file_path "/" then file_path
  else folder +:+ "/" +:+ file_path.

(** ** [_wastickers.py]: the partitioner *)

Record PackInfo := {
  pi_title : string;
  pi_author : string;
  pi_image_paths : list string;
  pi_tray_path : string;
}.

(** [math.ceil(a / b)] on lengths; the true division raises on [b = 0]. *)
Definition math_ceil_div (a b : nat) : result nat :=
  if b =? 0 then Raise ZeroDivisionError
  else Ok (if a mod b =? 0 then a / b else a / b + 1).

(** [range(0, stop, step)] for [step > 0]: [0, step, 2*step, ...] below
    [stop]. *)
Fixpoint range_from (fuel start stop step : nat) : list nat :=
  match fuel with
  | 0 => []
  | S fuel' =>
      if start <? stop then start :: range_from fuel' (start + step) stop step
      else []
  end.
Definition py_range (stop step : nat) : list nat := range_from stop 0 stop step.

(** [lst[i:j]] for [0 <= i <= j] *)
Definition slice {A} (lst : list A) (i j : nat) : list A :=
  take (j - i) (drop i lst).

(** [_chunks(lst, n)], collected into a list; [range] rejects a zero step. *)
Definition _chunks {A} (lst : list A) (n : nat) : result (list (list A)) :=
  if n =? 0 then Raise ValueError
  else Ok (map (fun i => slice lst i (i + n)) (py_range (length lst) n)).

(** [sorted(...)] on paths of one folder. *)
Definition sorted (l : list string) : list string := merge_sort String.le l.

(** [folder.glob("*" + ext)] and [folder.glob(f"*{x}*")]; a folder is the
    list of the names of its entries, in directory order. *)
Definition glob_ext (folder : list string) (ext : string) : list string :=
  filter (fun x => endswith (path_name x) ext = true) folder.
Definition glob_infix (folder : list string) (x : string) : list string :=
  filter (fun y => contains (path_name y) x = true) folder.

Definition image_paths_of (folder : list string) : list string :=
  let png := filter (fun x => path_stem x <> "tray") (glob_ext folder ".png") in
  let webp := glob_ext folder ".webp" in
  sorted (png ++ webp).

(** [x[0]] *)
Definition first_item {A} (l : list A) : result A :=
  match l with
  | x :: _ => Ok x
  | [] => Raise IndexError
  end.

Fixpoint zip3 {A B C} (la : list A) (lb : list B) (lc : list C)
  : list (A * B * C) :=
  match la, lb, lc with
  | a :: la', b :: lb', c :: lc' => (a, b, c) :: zip3 la' lb' lc'
  | _, _, _ => []
  end.

Definition chunk_titles (title : string) (num_chunks : nat) : list string :=
  if num_chunks =? 1 then [title]
  else map (fun x => title +:+ " " +:+ pretty (x + 1)) (seq 0 num_chunks).

Definition preprocess (folder : list string) (title author : string)
    (tray_names : option (list string)) : result (list PackInfo) :=
  let image_paths := image_paths_of folder in
  num_chunks ← math_ceil_div (length image_paths) 30;
  chunk_size ← math_ceil_div (length image_paths) num_chunks;
  let titles := chunk_titles title num_chunks in
  image_pack_paths ← _chunks image_paths chunk_size;
  tray_paths ←
    match tray_names with
    | None => mapM first_item image_pack_paths
    | Some names =>
        if length names =? num_chunks
        then mapM (fun x => first_item (sorted (glob_infix folder x))) names
        else Raise ValueError
    end;
  Ok (map (fun '(t, ipp, tp) =>
             {| pi_title := t; pi_author := author;
                pi_image_paths := ipp; pi_tray_path := tp |})
          (zip3 titles image_pack_paths tray_paths)).

(** ** Images and the imaging library *)

Definition bytes := list Byte.byte.

(** A pixel is the tuple of its band values; the image data is row-major. *)
Definition Pixel := list Z.

Record Image := {
  im_format : option string;   (* [im.format]: "PNG", "WEBP", ..., or None *)
  im_mode : string;            (* [im.mode] *)
  im_width : Z;
  im_height : Z;               (* [im.size = (im_width, im_height)] *)
  im_data : list Pixel;
}.

(** What the sources call in PIL and in the text codec, and do not define. *)
Record Platform := {
  (* [im.resize((w, h), Image.BICUBIC)] *)
  resize : Image -> Z -> Z -> Image;
  (* the conversion [paste] applies to a pixel of a source image of the
     given mode when the destination is "RGBA" *)
  convert_rgba : string -> Pixel -> Pixel;
  (* [im.save(fp, format="PNG"); fp.getvalue()] and the same for "WEBP" *)
  save_png : Image -> bytes;
  save_webp : Image -> bytes;
  (* [Image.open(fp)]; [None] when PIL cannot identify the data *)
  image_open : bytes -> option Image;
  (* [s.encode("utf-8")], applied by [writestr] to a [str], and
     [b.decode("utf-8")] *)
  utf8_encode : string -> bytes;
  utf8_decode : bytes -> option string;
}.

(** [im.copy()]: same mode, size and data; [format] is None for every image
    the library creates itself. *)
Definition image_copy (im : Image) : Image :=
  {| im_format := None; im_mode := im_mode im;
     im_width := im_width im; im_height := im_height im;
     im_data := im_data im |}.

(** The sizes both codecs can store: sides between 1 and 16383 (the limit
    of WEBP). *)
Definition encodable (im : Image) : Prop :=
  (0 < im_width im < 16384)%Z /\ (0 < im_height im < 16384)%Z.

(** The documented behaviour of the library the proofs rely on. *)
Record PlatformLaws (P : Platform) : Prop := {
  (* resizing to the present size returns a copy *)
  resize_same : forall im,
    resize P im (im_width im) (im_height im) = image_copy im;
  (* pasting an "RGBA" image into an "RGBA" image converts nothing *)
  convert_rgba_id : forall px, convert_rgba P "RGBA" px = px;
  (* an encoded image is identified again, with its format and size *)
  open_png : forall im, encodable im -> exists im',
    image_open P (save_png P im) = Some im' /\
    im_format im' = Some "PNG" /\
    im_width im' = im_width im /\ im_height im' = im_height im;
  open_webp : forall im, encodable im -> exists im',
    image_open P (save_webp P im) = Some im' /\
    im_format im' = Some "WEBP" /\
    im_width im' = im_width im /\ im_height im' = im_height im;
  utf8_roundtrip : forall s, utf8_decode P (utf8_encode P s) = Some s;
}.

(** [Image.new(mode, (w, h), color)] *)
Definition image_new (mode : string) (w h : Z) (color : Pixel) : Image :=
  {| im_format := None; im_mode := mode; im_width := w; im_height := h;
     im_data := replicate (Z.to_nat (w * h)) color |}.

Definition getpixel (im : Image) (x y : Z) : Pixel :=
  default [] (im_data im !! Z.to_nat (y * im_width im + x)).

(** [dst.paste(src, (ox, oy))] for an "RGBA" destination: the pixels of
    [dst] inside the box of [src] placed at [(ox, oy)] are replaced. *)
Definition paste (P : Platform) (dst src : Image) (ox oy : Z) : Image :=
  {| im_format := im_format dst; im_mode := im_mode dst;
     im_width := im_width dst; im_height := im_height dst;
     im_data :=
       imap (fun i old =>
               let x := (Z.of_nat i mod im_width dst)%Z in
               let y := (Z.of_nat i / im_width dst)%Z in
               if (ox <=? x)%Z && (x <? ox + im_width src)%Z &&
                  (oy <=? y)%Z && (y <? oy + im_height src)%Z
               then convert_rgba P (im_mode src) (getpixel src (x - ox) (y - oy))
               else old)
            (im_data dst) |}.

(** Python's [round] of a real: to the nearest integer, ties to the even
    one. The float arithmetic of the source is taken exactly, over [Q]. *)
Definition py_round (q : Q) : Z :=
  let f := Qfloor q in
  match (q - inject_Z f ?= 1 # 2)%Q with
  | Lt => f
  | Gt => (f + 1)%Z
  | Eq => if Z.even f then f else (f + 1)%Z
  end.

(** ** [wastickers/__init__.py] *)

Definition _squarify (P : Platform) (im : Image) (pixels : Z) : result Image :=
  let w := im_width im in
  let h := im_height im in
  if (Z.max w h =? 0)%Z then Raise ZeroDivisionError
  else
    let ratio := (inject_Z pixels / inject_Z (Z.max w h))%Q in
    let w := py_round (inject_Z w * ratio)%Q in
    let h := py_round (inject_Z h * ratio)%Q in
    let im := resize P im w h in
    let size := Z.max w h in
    let new_im := image_new "RGBA" size size [0; 0; 0; 1]%Z in
    Ok (paste P new_im im (Z.quot (size - w) 2) (Z.quot (size - h) 2)).

Record StickerPack := {
  file_name : string;
  title : string;
  author : string;
  tray_img : option Image;
  sticker_imgs : list (string * Image);   (* a dict, in insertion order *)
}.

(** [StickerPack()] *)
Definition new_pack : StickerPack :=
  {| file_name := EmptyString; title := EmptyString; author := EmptyString; tray_img := None;
     sticker_imgs := [] |}.

(** [d[k] = v] on an insertion-ordered dict *)
Fixpoint dict_set {V} (d : list (string * V)) (k : string) (v : V)
  : list (string * V) :=
  match d with
  | [] => [(k, v)]
  | (k', v') :: d' =>
      if decide (k' = k) then (k, v) :: d' else (k', v') :: dict_set d' k v
  end.

Definition set_tray_img (self : StickerPack) (im : Image) : StickerPack :=
  {| file_name := file_name self; title := title self; author := author self;
     tray_img := Some im; sticker_imgs := sticker_imgs self |}.

Definition check (self : StickerPack) : result unit :=
  if decide (title self = EmptyString) then Raise (InvalidStickerPack MissingTitle)
  else if decide (author self = EmptyString) then Raise (InvalidStickerPack MissingAuthor)
  else
    let count := length (sticker_imgs self) in
    if negb ((3 <=? count) && (count <=? 30))
    then Raise (InvalidStickerPack (BadStickerCount count))
    else Ok ().

(** *** The file system and zip files *)

(** A zip file is the list of its entries in the order they were written;
    [writestr] appends, also under a name already present. *)
Definition Archive := list (string * bytes).

Inductive File :=
| ZipFile (entries : Archive)
| PlainFile (content : bytes).

Record World := {
  cwd : string;                 (* [os.getcwd()] *)
  files : gmap string File;
}.

Definition set_file (w : World) (path : string) (f : File) : World :=
  {| cwd := cwd w; files := <[path := f]> (files w) |}.

(** The entry a name refers to ([zf.open], [zf.read], [zf.getinfo]): the
    last one written under it. *)
Fixpoint zip_find (zf : Archive) (name : string) : option bytes :=
  match zf with
  | [] => None
  | (n, b) :: zf' =>
      match zip_find zf' name with
      | Some b' => Some b'
      | None => if decide (n = name) then Some b else None
      end
  end.

Definition zip_read (zf : Archive) (name : string) : result bytes :=
  match zip_find zf name with
  | Some b => Ok b
  | None => Raise (KeyError name)
  end.

Definition namelist (zf : Archive) : list string := zf.*1.

Definition pil_open (P : Platform) (b : bytes) : result Image :=
  match image_open P b with
  | Some im => Ok im
  | None => Raise UnidentifiedImageError
  end.

(** The loop [for name, img in self.sticker_imgs.items()] of [save]: the
    archive written so far, and the exception that ended the loop early. *)
Fixpoint write_stickers (P : Platform) (items : list (string * Image))
    (zf : Archive) : result unit * Archive :=
  match items with
  | [] => (Ok (), zf)
  | (name, img) :: rest =>
      match _squarify P img 512 with
      | Ok img' => write_stickers P rest (zf ++ [(name, save_webp P img')])
      | Raise e => (Raise e, zf)
      end
  end.

(** The destination of [save]:
    [file_name = file_name or self.file_name or self.title], then
    [folder / Path(file_name + ".wastickers")] with
    [folder = folder or os.getcwd()]. An absent argument is [None]. *)
Definition save_file_name (self : StickerPack) (fname : option string) : string :=
  str_or (default EmptyString fname) (str_or (file_name self) (title self)).

Definition save_path (self : StickerPack) (w : World)
    (fname folder : option string) : string :=
  let file_path := save_file_name self fname +:+ ".wastickers" in
  let folder := str_or (default EmptyString folder) (cwd w) in
  path_join folder file_path.

(** [StickerPack.save]: the outcome, the pack object and the file system
    after the call. Leaving the [with zipfile.ZipFile(...)] block, also by an
    exception, closes the archive with the entries written so far. *)
Definition save (P : Platform) (self : StickerPack) (w : World)
    (fname folder : option string) (overwrite : bool)
  : result unit * StickerPack * World :=
  match check self with
  | Raise e => (Raise e, self, w)
  | Ok _ =>
      let path := save_path self w fname folder in
      match
        match tray_img self with
        | None => first_item (sticker_imgs self).*2
        | Some im => Ok im
        end
      with
      | Raise e => (Raise e, self, w)
      | Ok tray =>
          let self := set_tray_img self tray in
          if negb overwrite && bool_decide (is_Some (files w !! path))
          then (Raise (FileExistsError path), self, w)
          else
            let zf := [("title.txt", utf8_encode P (title self));
                       ("author.txt", utf8_encode P (author self))] in
            match _squarify P tray 96 with
            | Raise e => (Raise e, self, set_file w path (ZipFile zf))
            | Ok tray =>
                let self := set_tray_img self tray in
                let zf := zf ++ [("tray.png", save_png P tray)] in
                let '(r, zf) := write_stickers P (sticker_imgs self) zf in
                (r, self, set_file w path (ZipFile zf))
            end
      end
  end.

(** ** [wastickers/load.py] *)

Definition assert_ (cond : bool) (msg : Reason) : result unit :=
  if cond then Ok () else Raise (AssertionError msg).

(** [zipfile.is_zipfile(filepath)]: false also when nothing is there. *)
Definition is_zipfile (w : World) (filepath : string) : bool :=
  match files w !! filepath with
  | Some (ZipFile _) => true
  | _ => false
  end.

(** [zipfile.ZipFile(filepath)], opened for reading *)
Definition open_zip (w : World) (filepath : string) : result Archive :=
  match files w !! filepath with
  | Some (ZipFile zf) => Ok zf
  | Some (PlainFile _) => Raise BadZipFile
  | None => Raise (FileNotFoundError filepath)
  end.

(** [zf.getinfo(name).file_size] *)
Definition file_size (zf : Archive) (name : string) : result Z :=
  b ← zip_read zf name; Ok (Z.of_nat (length b)).

(** A [for] loop whose body may raise. *)
Fixpoint for_each {A} (body : A -> result unit) (l : list A) : result unit :=
  match l with
  | [] => Ok ()
  | x :: l' => body x;; for_each body l'
  end.

Definition check_tray (P : Platform) (zf : Archive) : result unit :=
  imgfile ← zip_read zf "tray.png";
  img ← pil_open P imgfile;
  assert_ (bool_decide (im_format img = Some "PNG")) TrayNotPng;;
  assert_ (bool_decide ((im_width img, im_height img) = (96, 96)%Z))
          (TrayWrongSize (im_width img) (im_height img));;
  size ← file_size zf "tray.png";
  assert_ (size <? 50 * 1024)%Z TrayTooLarge.

Definition check_webp (P : Platform) (zf : Archive) (webpfile : string)
  : result unit :=
  imgfile ← zip_read zf webpfile;
  img ← pil_open P imgfile;
  assert_ (bool_decide (im_format img = Some "WEBP")) (WebpNotWebp webpfile);;
  assert_ (bool_decide ((im_width img, im_height img) = (512, 512)%Z))
          (WebpWrongSize webpfile (im_width img) (im_height img));;
  size ← file_size zf webpfile;
  assert_ (size <? 100 * 1024)%Z (WebpTooLarge webpfile).

(** The body of the [try] block of [check_valid_wastickers]. *)
Definition check_body (P : Platform) (w : World) (filepath : string)
  : result unit :=
  (* File checks *)
  assert_ (bool_decide (path_suffix filepath = ".wastickers")) BadExtension;;
  assert_ (is_zipfile w filepath) (NotZipFile filepath);;
  zf ← open_zip w filepath;
  let namelist := namelist zf in
  (* PNG checks *)
  let png_count :=
    length (filter (fun name => endswith (lower name) ".png" = true) namelist) in
  assert_ (png_count =? 1) PngCount;;
  assert_ (bool_decide ("tray.png" ∈ namelist)) TrayNotFound;;
  check_tray P zf;;
  (* WEBP checks *)
  let webplist := filter (fun name => endswith name ".webp" = true) namelist in
  let webp_count := length webplist in
  assert_ ((1 <=? webp_count) && (webp_count <=? 30)) WebpCount;;
  for_each (check_webp P zf) webplist;;
  (* TXT checks *)
  assert_ (bool_decide ("title.txt" ∈ namelist)) NoTitleFile;;
  assert_ (bool_decide ("author.txt" ∈ namelist)) NoAuthorFile.

(** [check_valid_wastickers]: an [AssertionError] of the body is raised
    again as [InvalidWastickersFile]; any other exception passes through. *)
Definition check_valid_wastickers (P : Platform) (w : World) (filepath : string)
  : result unit :=
  match check_body P w filepath with
  | Raise (AssertionError e) => Raise (InvalidWastickersFile e)
  | r => r
  end.

Definition utf8_read (P : Platform) (zf : Archive) (name : string)
  : result string :=
  b ← zip_read zf name;
  match utf8_decode P b with
  | Some s => Ok s
  | None => Raise UnicodeDecodeError
  end.

(** The loop [for webp in webp_names] of [from_wastickers]. *)
Fixpoint load_stickers (P : Platform) (zf : Archive) (webp_names : list string)
    (imgs : list (string * Image)) : result (list (string * Image)) :=
  match webp_names with
  | [] => Ok imgs
  | webp :: rest =>
      fp ← zip_read zf webp;
      img ← pil_open P fp;
      load_stickers P zf rest (dict_set imgs webp img)
  end.

Definition from_wastickers (P : Platform) (w : World) (file_path : string)
  : result StickerPack :=
  zf ← open_zip w file_path;
  let zip_names := namelist zf in
  let webp_names := filter (fun name => endswith name ".webp" = true) zip_names in
  author ← utf8_read P zf "author.txt";
  title ← utf8_read P zf "title.txt";
  fp ← zip_read zf "tray.png";
  tray ← pil_open P fp;
  stickers ← load_stickers P zf webp_names [];
  Ok {| file_name := path_stem file_path; title := title; author := author;
        tray_img := Some tray; sticker_imgs := stickers |}.

(** ** A small instance of the interface

    Nearest-neighbour resizing and a five-byte image header (a tag and the
    two dimensions, big-endian on two bytes each); it is used to run the
    definitions on concrete packs. *)

Definition byte_of_Z (z : Z) : Byte.byte :=
  default Byte.x00 (Byte.of_N (Z.to_N z)).
Definition Z_of_byte (b : Byte.byte) : Z := Z.of_N (Byte.to_N b).

Definition simple_resize (im : Image) (w h : Z) : Image :=
  if decide ((w, h) = (im_width im, im_height im)) then image_copy im
  else
    {| im_format := None; im_mode := im_mode im; im_width := w; im_height := h;
       im_data :=
         map (fun i =>
                getpixel im ((Z.of_nat i mod w) * im_width im / w)%Z
                            ((Z.of_nat i / w) * im_height im / h)%Z)
             (seq 0 (Z.to_nat (w * h))) |}.

Definition simple_convert (mode : string) (px : Pixel) : Pixel :=
  if decide (mode = "RGBA") then px else take 3 (px ++ [0; 0; 0]%Z) ++ [255%Z].

Definition simple_header (tag : Byte.byte) (im : Image) : bytes :=
  [tag;
   byte_of_Z (im_width im / 256); byte_of_Z (im_width im mod 256);
   byte_of_Z (im_height im / 256); byte_of_Z (im_height im mod 256)].

Definition simple_open (b : bytes) : option Image :=
  match b with
  | [tag; w1; w0; h1; h0] =>
      let w := (256 * Z_of_byte w1 + Z_of_byte w0)%Z in
      let h := (256 * Z_of_byte h1 + Z_of_byte h0)%Z in
      let blank fmt :=
        Some {| im_format := Some fmt; im_mode := "RGBA";
                im_width := w; im_height := h;
                im_data := replicate (Z.to_nat (w * h)) [0; 0; 0; 0]%Z |} in
      if Byte.eqb tag Byte.x50 then blank "PNG"       (* 'P' *)
      else if Byte.eqb tag Byte.x57 then blank "WEBP" (* 'W' *)
      else None
  | _ => None
  end.

Definition simple_platform : Platform :=
  {| resize := simple_resize;
     convert_rgba := simple_convert;
     save_png := simple_header Byte.x50;
     save_webp := simple_header Byte.x57;
     image_open := simple_open;
     utf8_encode := String.list_byte_of_string;
     utf8_decode := fun b => Some (String.string_of_list_byte b) |}.

(** A blank image of the given size. *)
Definition blank_image (w h : Z) : Image :=
  image_new "RGBA" w h [0; 0; 0; 0]%Z.

(** ** Sample data

    Packs, a folder and a file system on which the definitions are run. *)

Definition result_to_option {A} (r : result A) : option A :=
  match r with Ok a => Some a | Raise _ => None end.

(** Three stickers named as [from_wastickers] names them. *)
Definition webp_pack : StickerPack :=
  {| file_name := EmptyString; title := "Cats"; author := "Jo"; tray_img := None;
     sticker_imgs := [("000.webp", blank_image 512 512);
                      ("001.webp", blank_image 300 200);
                      ("002.webp", blank_image 64 512)] |}.

(** The same pack with the names [from_line] gives its stickers. *)
Definition png_pack : StickerPack :=
  {| file_name := EmptyString; title := "Cats"; author := "Jo"; tray_img := None;
     sticker_imgs := [("000.png", blank_image 512 512);
                      ("001.png", blank_image 300 200);
                      ("002.png", blank_image 64 512)] |}.

(** The same pack with bare names. *)
Definition plain_pack : StickerPack :=
  {| file_name := EmptyString; title := "Cats"; author := "Jo"; tray_img := None;
     sticker_imgs := [("a", blank_image 512 512);
                      ("b", blank_image 300 200);
                      ("c", blank_image 64 512)] |}.

Definition empty_world : World := {| cwd := "/home/jo"; files := ∅ |}.

(** A file system where the destination of [webp_pack] is taken. *)
Definition busy_world : World :=
  {| cwd := "/home/jo";
     files := {[ "/home/jo/Cats.wastickers" := PlainFile [] ]} |}.

(** Two containers written by hand with the small codec: one with a single
    sticker, one without [author.txt]. *)
Definition one_sticker_archive : Archive :=
  [("title.txt", String.list_byte_of_string "Cats");
   ("author.txt", String.list_byte_of_string "Jo");
   ("tray.png", simple_header Byte.x50 (blank_image 96 96));
   ("only.webp", simple_header Byte.x57 (blank_image 512 512))].

Definition no_author_archive : Archive :=
  [("title.txt", String.list_byte_of_string "Cats");
   ("tray.png", simple_header Byte.x50 (blank_image 96 96));
   ("only.webp", simple_header Byte.x57 (blank_image 512 512))].

Definition hand_world : World :=
  {| cwd := "/home/jo";
     files := {[ "/home/jo/one.wastickers" := ZipFile one_sticker_archive;
                 "/home/jo/anon.wastickers" := ZipFile no_author_archive ]} |}.

(** A folder of 31 numbered images and a tray. *)
Definition sample_folder : list string :=
  "tray.png" :: map (fun i => pretty i +:+ ".png") (seq 100 31).

(** ** The validation rules of the specification

    The six numbered rules of the specification of the validator, each as a
    check of its own on the container at [filepath], and the validator the
    specification describes: the rules in the listed order, the first
    violated one reported. These follow the specification, not the source;
    [check_valid_wastickers] above is the source. *)

Definition spec_rule_extension (w : World) (filepath : string) : result unit :=
  assert_ (bool_decide (path_suffix filepath = ".wastickers")) BadExtension.

Definition spec_rule_archive (w : World) (filepath : string) : result unit :=
  assert_ (is_zipfile w filepath) (NotZipFile filepath).

Definition spec_rule_tray_entry (w : World) (filepath : string) : result unit :=
  zf ← open_zip w filepath;
  let pngs := filter (fun name => endswith (lower name) ".png" = true) (namelist zf) in
  assert_ (length pngs =? 1) PngCount;;
  assert_ (bool_decide ("tray.png" ∈ namelist zf)) TrayNotFound.

Definition spec_rule_tray_image (P : Platform) (w : World) (filepath : string)
  : result unit :=
  zf ← open_zip w filepath; check_tray P zf.

Definition spec_rule_stickers (P : Platform) (w : World) (filepath : string)
  : result unit :=
  zf ← open_zip w filepath;
  let webps := filter (fun name => endswith name ".webp" = true) (namelist zf) in
  assert_ ((1 <=? length webps) && (length webps <=? 30)) WebpCount;;
  for_each (check_webp P zf) webps.

Definition spec_rule_metadata (w : World) (filepath : string) : result unit :=
  zf ← open_zip w filepath;
  assert_ (bool_decide ("title.txt" ∈ namelist zf)) NoTitleFile;;
  assert_ (bool_decide ("author.txt" ∈ namelist zf)) NoAuthorFile.

Definition spec_rules (P : Platform) : list (World -> string -> result unit) :=
  [spec_rule_extension; spec_rule_archive; spec_rule_tray_entry;
   spec_rule_tray_image P; spec_rule_stickers P; spec_rule_metadata].

(** The outcome of the first rule that does not pass. *)
Fixpoint first_violation (rules : list (World -> string -> result unit))
    (w : World) (filepath : string) : result unit :=
  match rules with
  | [] => Ok ()
  | rule :: rules' =>
      match rule w filepath with
      | Ok _ => first_violation rules' w filepath
      | Raise e => Raise e
      end
  end.

Definition spec_validate (P : Platform) (w : World) (filepath : string)
  : result unit :=
  match first_violation (spec_rules P) w filepath with
  | Raise (AssertionError e) => Raise (InvalidWastickersFile e)
  | r => r
  end.

(** ** Auxiliary definitions for the statements *)

(** The side of the canvas, as the source computes it. *)
Definition scaled_side (im : Image) (pixels : Z) : Z :=
  let m := Z.max (im_width im) (im_height im) in
  let ratio := (inject_Z pixels / inject_Z m)%Q in
  Z.max (py_round (inject_Z (im_width im) * ratio))
        (py_round (inject_Z (im_height im) * ratio)).

(** The entry [save] writes for a sticker. *)
Definition sticker_entry (P : Platform) (item : string * Image) (e : string * bytes) : Prop :=
  exists sq, _squarify P item.2 512 = Ok sq /\ e = (item.1, save_webp P sq).

(** The tray image [save] starts from. *)
Definition tray_source (self : StickerPack) : result Image :=
  match tray_img self with
  | None => first_item (sticker_imgs self).*2
  | Some im => Ok im
  end.

Definition head_entries (P : Platform) (self : StickerPack) (tray : Image) : Archive :=
  [("title.txt", utf8_encode P (title self));
   ("author.txt", utf8_encode P (author self));
   ("tray.png", save_png P tray)].

(** Every image PIL hands out has non-negative sides. *)
Definition valid_size (im : Image) : Prop :=
  (0 <= im_width im)%Z /\ (0 <= im_height im)%Z.

Definition positive_size (im : Image) : Prop :=
  (0 < im_width im)%Z /\ (0 < im_height im)%Z.

(** The sticker names all end in [.webp]. *)
Definition webp_named (self : StickerPack) : Prop :=
  Forall (fun item => endswith item.1 ".webp" = true) (sticker_imgs self).

(** Every image of the pack has positive sides. *)
Definition images_ok (self : StickerPack) : Prop :=
  (forall im, tray_img self = Some im -> positive_size im) /\
  Forall (fun item => positive_size item.2) (sticker_imgs self).

(** The encodings [save] writes are below the size limits of the validator:
    50 KiB for the tray, 100 KiB for a sticker. *)
Definition encodings_fit (P : Platform) (self : StickerPack) : Prop :=
  (forall tray0 tray,
     tray_source self = Ok tray0 -> _squarify P tray0 96 = Ok tray ->
     (Z.of_nat (length (save_png P tray)) < 50 * 1024)%Z) /\
  Forall (fun item => forall sq,
            _squarify P item.2 512 = Ok sq ->
            (Z.of_nat (length (save_webp P sq)) < 100 * 1024)%Z)
         (sticker_imgs self).

(** ** [_wastickers.py]: [_to_snake_case]

    The text is taken to be ASCII: on a character outside ASCII Python's
    [str.isdigit] and [str.lower] consult the Unicode tables. *)

Definition is_digit (c : ascii) : bool :=
  let n := Ascii.nat_of_ascii c in (48 <=? n) && (n <=? 57).

(** [c in string.ascii_letters] *)
Definition is_ascii_letter (c : ascii) : bool :=
  let n := Ascii.nat_of_ascii c in
  ((65 <=? n) && (n <=? 90)) || ((97 <=? n) && (n <=? 122)).

(** The characters of ["_ .-\n"]. *)
Definition snake_separators : list ascii :=
  ["_"; " "; "."; "-"; "010"]%char.

Definition _is_snake_char (c : ascii) : bool :=
  is_digit c || is_ascii_letter c || bool_decide (c ∈ snake_separators).

(** [text.replace(old, new)] for a non-empty [old]: the occurrences of [old]
    are found from the left and do not overlap. [skip] counts the characters
    of an occurrence still to be passed over. *)
Fixpoint replace_go (old new : list ascii) (skip : nat) (text : list ascii)
  : list ascii :=
  match text with
  | [] => []
  | c :: rest =>
      match skip with
      | S k => replace_go old new k rest
      | 0 =>
          if bool_decide (old `prefix_of` text)
          then new ++ replace_go old new (length old - 1) rest
          else c :: replace_go old new 0 rest
      end
  end.

Definition str_replace (text old new : list ascii) : list ascii :=
  replace_go old new 0 text.

(** [while "__" in text: text = text.replace("__", "_")]. Every turn
    shortens the text, so [length text] turns are enough
    ([collapse_underscores_done]). *)
Fixpoint collapse_underscores (fuel : nat) (text : list ascii) : list ascii :=
  match fuel with
  | 0 => text
  | S fuel' =>
      if contains_chars text ["_"; "_"]%char
      then collapse_underscores fuel' (str_replace text ["_"; "_"]%char ["_"%char])
      else text
  end.

Definition _to_snake_case (text : string) : result string :=
  let text := filter (fun c => _is_snake_char c = true) (chars text) in
  let text := chars (lower (of_chars text)) in
  let text := str_replace text [" "%char] ["_"%char] in
  let text := str_replace text ["."%char] ["_"%char] in
  let text := str_replace text ["-"%char] ["_"%char] in
  let text := str_replace text ["010"%char] ["_"%char] in
  let text := collapse_underscores (length text) text in
  match last text with
  | None => Raise IndexError                       (* text[-1] on the empty string *)
  | Some c =>
      if decide (c = "_"%char)
      then Ok (of_chars (take (length text - 1) text))   (* text[:-1] *)
      else Ok (of_chars text)
  end.

(** [wastickers.py], the earlier [_to_snake_case]:
    [text.lower().replace(" ", "_").replace("-", "_")]. *)
Definition _to_snake_case_v1 (text : string) : string :=
  of_chars (str_replace (str_replace (chars (lower text)) [" "%char] ["_"%char])
                        ["-"%char] ["_"%char]).

(** Auxiliary: a text has two underscores in a row; the text with every run
    of underscores cut down to one; the characters a result is made of. *)
Definition starts_underscore (l : list ascii) : bool :=
  bool_decide (head l = Some "_"%char).

Fixpoint has_double_underscore (l : list ascii) : bool :=
  match l with
  | [] => false
  | c :: r =>
      (bool_decide (c = "_"%char) && starts_underscore r) ||
      has_double_underscore r
  end.

Fixpoint squeeze (l : list ascii) : list ascii :=
  match l with
  | [] => []
  | c :: r =>
      if bool_decide (c = "_"%char) && starts_underscore r then squeeze r
      else c :: squeeze r
  end.

Definition is_ascii_lower (c : ascii) : bool :=
  let n := Ascii.nat_of_ascii c in (97 <=? n) && (n <=? 122).

Definition is_snake_out (c : ascii) : bool :=
  is_digit c || is_ascii_lower c || bool_decide (c = "_"%char).

(** One pass of [replace("__", "_")]. *)
Definition halve (t : list ascii) : list ascii :=
  str_replace t ["_"; "_"]%char ["_"%char].

(** What the four single-character [replace] calls do to one character,
    after [lower]. *)
Definition snake_normalise (c : ascii) : ascii :=
  let r (old : ascii) (x : ascii) := if decide (x = old) then "_"%char else x in
  r "010"%char (r "-"%char (r "."%char (r " "%char (lower_char c)))).

Definition snake_body (text : string) : list ascii :=
  squeeze (map snake_normalise
               (filter (fun c => _is_snake_char c = true) (chars text))).

(** The text holds ASCII characters only. *)
Definition ascii_text (text : string) : Prop :=
  Forall (fun c => Ascii.nat_of_ascii c < 128) (chars text).

(** ** Auxiliary definitions for the further properties *)

(** The names [save] writes when nothing fails, in the order it writes them. *)
Definition full_names (self : StickerPack) : list string :=
  ["title.txt"; "author.txt"; "tray.png"] ++ (sticker_imgs self).*1.

(** An image [_squarify] cannot scale: both sides are zero. *)
Definition zero_size (im : Image) : Prop :=
  Z.max (im_width im) (im_height im) = 0%Z.

(** The exceptions the checks on one image of the container can raise. *)
Definition image_check_exn (e : exn) : Prop :=
  (exists r, e = AssertionError r) \/ e = UnidentifiedImageError.

(** The chunks [preprocess] cuts the images of a folder into. *)
Definition image_chunks (folder : list string) : list (list string) :=
  let images := image_paths_of folder in
  let n := length images in
  let chunk_count := (n + 29) / 30 in
  let chunk_size := (n + chunk_count - 1) / chunk_count in
  map (fun i => slice images i (i + chunk_size)) (py_range n chunk_size).

(** The [PackInfo] the comprehension at the end of [preprocess] builds. *)
Definition pack_info (author : string) (x : string * list string * string)
  : PackInfo :=
  let '(t, ipp, tp) := x in
  {| pi_title := t; pi_author := author;
     pi_image_paths := ipp; pi_tray_path := tp |}.

(** An entry of the folder is one of its images for [preprocess]. *)
Definition is_pack_image (x : string) : Prop :=
  (endswith (path_name x) ".png" = true /\ path_stem x <> "tray") \/
  endswith (path_name x) ".webp" = true.

(** The image [im] is what PIL reads from the entry that [name] refers to. *)
Definition decoded_from (P : Platform) (zf : Archive) (name : string)
    (im : Image) : Prop :=
  exists b, zip_find zf name = Some b /\ image_open P b = Some im.

(** A pack whose tray image has no pixels. *)
Definition zero_tray_pack : StickerPack :=
  {| file_name := EmptyString; title := "Cats"; author := "Jo";
     tray_img := Some (blank_image 0 0);
     sticker_imgs := sticker_imgs webp_pack |}.

(** A container with images of a few pixels that lists [a.webp] twice. *)
Definition tiny_archive : Archive :=
  [("title.txt", String.list_byte_of_string "Cats");
   ("author.txt", String.list_byte_of_string "Jo");
   ("tray.png", simple_header Byte.x50 (blank_image 2 2));
   ("a.webp", simple_header Byte.x57 (blank_image 2 1));
   ("b.webp", simple_header Byte.x57 (blank_image 1 1));
   ("a.webp", simple_header Byte.x57 (blank_image 1 2))].

Definition tiny_world : World :=
  {| cwd := "/home/jo";
     files := {[ "/home/jo/tiny.wastickers" := ZipFile tiny_archive ]} |}.

(** ** [_wastickers.py]: [_recursive_remove] and [clean]

    A directory tree without symbolic links: a regular file, a directory
    with its entries in the order [iterdir] yields them, or an entry that is
    neither ([is_file()] and [is_dir()] both false: a socket, a FIFO, a
    dangling link). The only failure modelled is that of [rmdir] on a
    directory that is not empty. *)

#[local] Unset Elimination Schemes.
Inductive Node :=
| FileNode
| DirNode (children : list (string * Node))
| OtherNode.
#[local] Set Elimination Schemes.

(** [OSError(ENOTEMPTY)], raised by [path.rmdir()]. *)
Inductive os_error :=
| DirectoryNotEmpty.

(** What is rem at a path after a call: the entry, if it was not removed. *)
Definition remaining (name : string) (n : option Node) : list (string * Node) :=
  match n with
  | Some n' => [(name, n')]
  | None => []
  end.

(** [_recursive_remove(path, inner)] on the entry [node] named [name]: the
    exception that ended the call, if any, and what is rem of the entry.
    The inner [loop] is [for child in path.iterdir()]; an exception leaves
    the children not yet visited as they are. *)
Fixpoint _recursive_remove (name : string) (node : Node) (inner : bool)
  : option os_error * option Node :=
  if decide (name = ".gitkeep") then (None, Some node)
  else
    match node with
    | FileNode => (None, None)                         (* path.unlink() *)
    | DirNode children =>
        let fix loop (cs : list (string * Node))
          : option os_error * list (string * Node) :=
          match cs with
          | [] => (None, [])
          | (cname, child) :: rest =>
              match _recursive_remove cname child true with
              | (Some e, rem) => (Some e, remaining cname rem ++ rest)
              | (None, rem) =>
                  let '(e, rest') := loop rest in
                  (e, remaining cname rem ++ rest')
              end
          end in
        match loop children with
        | (Some e, children') => (Some e, Some (DirNode children'))
        | (None, children') =>
            if inner then
              match children' with
              | [] => (None, None)                     (* path.rmdir() *)
              | _ :: _ => (Some DirectoryNotEmpty, Some (DirNode children'))
              end
            else (None, Some (DirNode children'))
        end
    | OtherNode => (None, Some node)
    end.

(** The loop over the children of a directory, as a function of its own. *)
Fixpoint remove_children (cs : list (string * Node))
  : option os_error * list (string * Node) :=
  match cs with
  | [] => (None, [])
  | (cname, child) :: rest =>
      match _recursive_remove cname child true with
      | (Some e, rem) => (Some e, remaining cname rem ++ rest)
      | (None, rem) =>
          let '(e, rest') := remove_children rest in
          (e, remaining cname rem ++ rest')
      end
  end.

(** [clean()]: the two calls in sequence on the entries [downloads] and
    [output] of the working directory, given as its list of entries; a path
    that does not exist is neither a file nor a directory. *)
Fixpoint remove_at (name : string) (dir : list (string * Node))
  : option os_error * list (string * Node) :=
  match dir with
  | [] => (None, [])
  | (cname, child) :: rest =>
      if decide (cname = name)
      then let '(e, rem) := _recursive_remove cname child false in
           (e, remaining cname rem ++ rest)
      else let '(e, rest') := remove_at name rest in (e, (cname, child) :: rest')
  end.

Definition clean (dir : list (string * Node))
  : option os_error * list (string * Node) :=
  match remove_at "downloads" dir with
  | (Some e, dir') => (Some e, dir')
  | (None, dir') => remove_at "output" dir'
  end.

(** An entry the call removes entirely: a file, or a directory of such
    entries, none of them named [.gitkeep]. *)
Fixpoint purgeable (name : string) (node : Node) : bool :=
  negb (bool_decide (name = ".gitkeep")) &&
  match node with
  | FileNode => true
  | DirNode children =>
      (fix all (cs : list (string * Node)) : bool :=
         match cs with
         | [] => true
         | (cname, child) :: rest => purgeable cname child && all rest
         end) children
  | OtherNode => false
  end.

(** An entry the call leaves in place without an exception. *)
Definition kept (name : string) (node : Node) : bool :=
  bool_decide (name = ".gitkeep") ||
  match node with OtherNode => true | _ => false end.

(** The entry of a directory with a given name. *)
Fixpoint find_entry (cs : list (string * Node)) (name : string) : option Node :=
  match cs with
  | [] => None
  | (cname, child) :: rest =>
      if decide (cname = name) then Some child else find_entry rest name
  end.

(** The entry a path of names leads to, below a list of entries. *)
Fixpoint lookup_path (cs : list (string * Node)) (p : list string)
  : option Node :=
  match p with
  | [] => None
  | [name] => find_entry cs name
  | name :: p' =>
      match find_entry cs name with
      | Some (DirNode children) => lookup_path children p'
      | _ => None
      end
  end.

(** An entry that makes the [rmdir] of the directories above it fail. *)
Definition stuck (c : string * Node) : Prop :=
  kept c.1 c.2 = false /\ purgeable c.1 c.2 = false.

Definition settled (c : string * Node) : Prop :=
  kept c.1 c.2 = true \/ purgeable c.1 c.2 = true.

(** The three outcomes of a call below the top directory. *)
Definition inner_outcome (name : string) (n : Node) : Prop :=
  (purgeable name n = true -> _recursive_remove name n true = (None, None)) /\
  (kept name n = true -> _recursive_remove name n true = (None, Some n)) /\
  (stuck (name, n) ->
   exists r, _recursive_remove name n true = (Some DirectoryNotEmpty, Some r)).

(** What survives of an entry holds every [.gitkeep] path it held. *)
Definition keeps_gitkeep (n : Node) : Prop :=
  forall name inner p m,
    last p = Some ".gitkeep" ->
    lookup_path [(name, n)] p = Some m ->
    lookup_path (remaining name (_recursive_remove name n inner).2) p = Some m.

(** A working directory after one download, and a folder with a [.gitkeep]
    below the top. *)
Definition sample_downloads : list (string * Node) :=
  [(".gitkeep", FileNode);
   ("gudetama", DirNode [("000.png", FileNode); ("001.png", FileNode)]);
   ("notes.txt", FileNode)].

Definition sample_output : list (string * Node) :=
  [(".gitkeep", FileNode);
   ("gudetama", DirNode [("tray.png", FileNode); ("title.txt", FileNode)]);
   ("gudetama.wastickers", FileNode)].

Definition sample_cwd : list (string * Node) :=
  [("downloads", DirNode sample_downloads);
   ("output", DirNode sample_output);
   ("wastickers.py", FileNode)].

Definition nested_keep : list (string * Node) :=
  [("pack", DirNode [(".gitkeep", FileNode); ("000.png", FileNode)])].

(** ** [wasticker.py]: [scale] and [square]; [_wastickers.py]: [_square] *)

Definition scale (P : Platform) (im : Image) (pixels : Z) : result Image :=
  let w := im_width im in
  let h := im_height im in
  if (Z.max w h =? 0)%Z then Raise ZeroDivisionError
  else
    let ratio := (inject_Z pixels / inject_Z (Z.max w h))%Q in
    let w := py_round (inject_Z w * ratio)%Q in
    let h := py_round (inject_Z h * ratio)%Q in
    Ok (resize P im w h).

Definition square (P : Platform) (im : Image) : Image :=
  let x := im_width im in
  let y := im_height im in
  let size := Z.max x y in
  let new_im := image_new "RGBA" size size [0; 0; 0; 1]%Z in
  paste P new_im im (Z.quot (size - x) 2) (Z.quot (size - y) 2).

Definition _square (P : Platform) (im : Image) (pixels : Z) : result Image :=
  let w := im_width im in
  let h := im_height im in
  if (Z.max w h =? 0)%Z then Raise ZeroDivisionError
  else
    let ratio := (inject_Z pixels / inject_Z (Z.max w h))%Q in
    let w := py_round (inject_Z w * ratio)%Q in
    let h := py_round (inject_Z h * ratio)%Q in
    let im := resize P im w h in
    let size := Z.max w h in
    let new_im := image_new "RGBA" size size [0; 0; 0; 1]%Z in
    Ok (paste P new_im im (Z.quot (size - w) 2) (Z.quot (size - h) 2)).

(** [resize] returns an image of the size it was asked for. *)
Definition resize_exact (P : Platform) : Prop :=
  forall im w h, (0 < w)%Z -> (0 < h)%Z ->
    im_width (resize P im w h) = w /\ im_height (resize P im w h) = h.

(** The two sides [scale] and [_squarify] ask [resize] for. *)
Definition scaled_width (im : Image) (pixels : Z) : Z :=
  py_round (inject_Z (im_width im) *
            (inject_Z pixels / inject_Z (Z.max (im_width im) (im_height im)))).
Definition scaled_height (im : Image) (pixels : Z) : Z :=
  py_round (inject_Z (im_height im) *
            (inject_Z pixels / inject_Z (Z.max (im_width im) (im_height im)))).

(** The pixel [(x, y)] lies in the box of a [w] by [h] image placed at
    [(ox, oy)]. *)
Definition in_box (ox oy w h x y : Z) : bool :=
  (ox <=? x)%Z && (x <? ox + w)%Z && (oy <=? y)%Z && (y <? oy + h)%Z.

(** The first [_to_snake_case] of [wastickers.py], character by character. *)
Definition snake_v1_char (c : ascii) : ascii :=
  let r (old : ascii) (x : ascii) := if decide (x = old) then "_"%char else x in
  r "-"%char (r " "%char (lower_char c)).

(** ** [wastickers/load.py]: [from_contents]

    The parsed [contents.json] with the types of WhatsApp's sample: a list
    of packs, each with its texts and the list of its stickers. A key that
    is absent is [None]; looking it up raises [KeyError]. *)

Record StickerJson := {
  st_image_file : option string;          (* sticker["image_file"] *)
}.

Record PackJson := {
  sp_identifier : option string;          (* sp["identifier"] *)
  sp_name : option string;                (* sp["name"] *)
  sp_publisher : option string;           (* sp["publisher"] *)
  sp_tray_image_file : option string;     (* sp["tray_image_file"] *)
  sp_stickers : option (list StickerJson);  (* sp["stickers"] *)
}.

Record ContentsJson := {
  sticker_packs : option (list PackJson); (* contents["sticker_packs"] *)
}.

(** [d[key]] *)
Definition json_get {A} (key : string) (v : option A) : result A :=
  match v with
  | Some a => Ok a
  | None => Raise (KeyError key)
  end.

(** [img = Image.open(path); img.load()] on a path of the file system. *)
Definition open_image_file (P : Platform) (w : World) (path : string)
  : result Image :=
  match files w !! path with
  | Some (PlainFile b) => pil_open P b
  | Some (ZipFile _) => Raise UnidentifiedImageError
  | None => Raise (FileNotFoundError path)
  end.

(** The loop [for sticker in stickers]. *)
Fixpoint load_images (P : Platform) (w : World) (sp_folder : string)
    (stickers : list StickerJson) (imgs : list (string * Image))
  : result (list (string * Image)) :=
  match stickers with
  | [] => Ok imgs
  | sticker :: rest =>
      name ← json_get "image_file" (st_image_file sticker);
      img ← open_image_file P w (path_join sp_folder name);
      load_images P w sp_folder rest (dict_set imgs name img)
  end.

(** The body of the loop [for sp in contents["sticker_packs"]]. *)
Definition pack_from_json (P : Platform) (w : World) (folder : string)
    (change_titles : gmap string string) (change_publisher : string)
    (sp : PackJson) : result StickerPack :=
  ident ← json_get "identifier" (sp_identifier sp);
  let sp_folder := path_join folder ident in
  stickers ← json_get "stickers" (sp_stickers sp);
  name ← json_get "name" (sp_name sp);
  let title := default name (change_titles !! name) in
  author ←
    match change_publisher with
    | EmptyString => json_get "publisher" (sp_publisher sp)
    | _ => Ok change_publisher
    end;
  tray_name ← json_get "tray_image_file" (sp_tray_image_file sp);
  tray ← open_image_file P w (path_join sp_folder tray_name);
  imgs ← load_images P w sp_folder stickers [];
  Ok {| file_name := EmptyString; title := title; author := author;
        tray_img := Some tray; sticker_imgs := imgs |}.

(** [from_contents] once [contents.json] is parsed. *)
Definition packs_from_contents (P : Platform) (w : World) (folder : string)
    (change_titles : gmap string string) (change_publisher : string)
    (contents : ContentsJson) : result (list StickerPack) :=
  sps ← json_get "sticker_packs" (sticker_packs contents);
  mapM (pack_from_json P w folder change_titles change_publisher) sps.

(** [from_contents(folder_path, change_titles=..., change_publisher=...)].
    [is_dir] is [Path.is_dir] and [json_load] is [json.load] on the bytes of
    the file; [ValueError] also stands for its subclass
    [json.JSONDecodeError]. *)
Definition from_contents (P : Platform) (w : World) (is_dir : string -> bool)
    (json_load : bytes -> option ContentsJson) (folder : string)
    (change_titles : gmap string string) (change_publisher : string)
  : result (list StickerPack) :=
  if negb (is_dir folder) then Raise ValueError
  else
    contents ←
      match files w !! path_join folder "contents.json" with
      | Some (PlainFile b) =>
          match json_load b with
          | Some c => Ok c
          | None => Raise ValueError
          end
      | Some (ZipFile _) => Raise ValueError
      | None => Raise (FileNotFoundError (path_join folder "contents.json"))
      end;
    packs_from_contents P w folder change_titles change_publisher contents.

(** The manifest without its [publisher] keys. *)
Definition without_publisher (sp : PackJson) : PackJson :=
  {| sp_identifier := sp_identifier sp; sp_name := sp_name sp;
     sp_publisher := None; sp_tray_image_file := sp_tray_image_file sp;
     sp_stickers := sp_stickers sp |}.

Definition without_publishers (c : ContentsJson) : ContentsJson :=
  {| sticker_packs := map without_publisher <$> sticker_packs c |}.

(** What [from_contents] makes of one entry of the manifest. *)
Definition pack_of_entry (change_titles : gmap string string)
    (change_publisher : string) (sp : PackJson) (pack : StickerPack) : Prop :=
  exists name,
    sp_name sp = Some name /\
    title pack = default name (change_titles !! name) /\
    (change_publisher <> EmptyString -> author pack = change_publisher) /\
    (change_publisher = EmptyString -> sp_publisher sp = Some (author pack)) /\
    file_name pack = EmptyString /\
    is_Some (tray_img pack) /\
    NoDup (sticker_imgs pack).*1 /\
    (forall x, x ∈ (sticker_imgs pack).*1 <->
               exists stickers, sp_stickers sp = Some stickers /\
                 Some x ∈ map st_image_file stickers).

(** A manifest of two packs, its images and the folder that holds them. *)
Definition sample_contents : ContentsJson :=
  {| sticker_packs := Some
       [ {| sp_identifier := Some "1"; sp_name := Some "Cuppy";
            sp_publisher := Some "Jane Doe";
            sp_tray_image_file := Some "tray_Cuppy.png";
            sp_stickers := Some [ {| st_image_file := Some "01_Cuppy_smile.webp" |};
                                  {| st_image_file := Some "02_Cuppy_lol.webp" |};
                                  {| st_image_file := Some "01_Cuppy_smile.webp" |} ] |};
         {| sp_identifier := Some "2"; sp_name := Some "Bobby";
            sp_publisher := None;
            sp_tray_image_file := Some "tray.png";
            sp_stickers := Some [] |} ] |}.

Definition contents_world : World :=
  {| cwd := "/home/jo";
     files :=
       {[ "packs/contents.json" := PlainFile [];
          "packs/1/tray_Cuppy.png" := PlainFile (simple_header Byte.x50 (blank_image 2 2));
          "packs/1/01_Cuppy_smile.webp" := PlainFile (simple_header Byte.x57 (blank_image 2 1));
          "packs/1/02_Cuppy_lol.webp" := PlainFile (simple_header Byte.x57 (blank_image 1 2));
          "packs/2/tray.png" := PlainFile (simple_header Byte.x50 (blank_image 1 1)) ]} |}.

(** * Properties *)

(** ** [StickerPack.check] *)

Lemma check_ok_iff (self : StickerPack) :
  check self = Ok () <->
  title self <> EmptyString /\ author self <> EmptyString /\
  3 <= length (sticker_imgs self) <= 30.
Proof.
  unfold check.
  destruct (decide (title self = EmptyString)) as [Ht|Ht];
    [split; [discriminate | tauto]|].
  destruct (decide (author self = EmptyString)) as [Ha|Ha];
    [split; [discriminate | tauto]|].
  destruct (Nat.leb_spec 3 (length (sticker_imgs self)));
    destruct (Nat.leb_spec (length (sticker_imgs self)) 30); simpl;
    (split; [intros Hok; try discriminate Hok; repeat split; auto
            | intros (_ & _ & ?); try lia; reflexivity]).
Qed.

(** C6. [check] tests the title, then the author, then the sticker count:
    an empty title gives "Missing title." whatever the other fields are; a
    non-empty title with an empty author gives "Missing author." whatever the
    count is; with both present a count outside 3..30 gives the count error;
    and [check] succeeds exactly when all three conditions hold. *)
Theorem check_first_failure (self : StickerPack) :
  (title self = EmptyString -> check self = Raise (InvalidStickerPack MissingTitle)) /\
  (title self <> EmptyString -> author self = EmptyString ->
     check self = Raise (InvalidStickerPack MissingAuthor)) /\
  (title self <> EmptyString -> author self <> EmptyString ->
     ~ (3 <= length (sticker_imgs self) <= 30) ->
     check self =
       Raise (InvalidStickerPack (BadStickerCount (length (sticker_imgs self))))) /\
  (check self = Ok () <->
     title self <> EmptyString /\ author self <> EmptyString /\
     3 <= length (sticker_imgs self) <= 30).
Proof.
  split; [|split; [|split]].
  - intros Ht. unfold check. rewrite decide_True by done. done.
  - intros Ht Ha. unfold check.
    rewrite decide_False by done. rewrite decide_True by done. done.
  - intros Ht Ha Hc. unfold check.
    rewrite !decide_False by done.
    destruct (3 <=? length (sticker_imgs self)) eqn:E3;
      destruct (length (sticker_imgs self) <=? 30) eqn:E30; simpl; try done.
    apply Nat.leb_le in E3, E30. lia.
  - apply check_ok_iff.
Qed.

(** ** [_chunks] and [preprocess] *)

Section Chunks.
Context {A : Type}.
Implicit Types (lst : list A) (n : nat).

Lemma slice_length lst i n :
  length (slice lst i (i + n)) = Nat.min n (length lst - i).
Proof.
  unfold slice. rewrite length_take, length_drop.
  replace (i + n - i) with n by lia. done.
Qed.

Lemma range_from_concat lst n fuel start :
  0 < n -> length lst - start <= fuel ->
  concat (map (fun i => slice lst i (i + n))
              (range_from fuel start (length lst) n)) = drop start lst.
Proof.
  intros Hn. revert start.
  induction fuel as [|fuel IH]; intros start Hfuel; simpl.
  - symmetry. apply drop_ge. lia.
  - destruct (Nat.ltb_spec start (length lst)) as [Hlt|Hge]; simpl.
    + rewrite IH by lia. unfold slice.
      replace (start + n - start) with n by lia.
      rewrite <- (take_drop n (drop start lst)) at 2.
      rewrite drop_drop. done.
    + symmetry. apply drop_ge. lia.
Qed.

Lemma range_from_bound n fuel start stop :
  Forall (fun i => start <= i < stop) (range_from fuel start stop n).
Proof.
  revert start. induction fuel as [|fuel IH]; intros start; simpl.
  - constructor.
  - destruct (Nat.ltb_spec start stop) as [Hlt|Hge]; [|constructor].
    constructor; [lia|].
    eapply Forall_impl; [apply IH|]. simpl. intros. lia.
Qed.

(** The number of steps of the range is the least [c] with
    [stop <= start + c * n]. *)
Lemma range_from_length n fuel start stop :
  0 < n -> stop - start <= fuel ->
  let c := length (range_from fuel start stop n) in
  stop <= start + c * n /\ (c = 0 \/ start + (c - 1) * n < stop).
Proof.
  intros Hn. revert start.
  induction fuel as [|fuel IH]; intros start Hfuel; simpl.
  - split; [lia | auto].
  - destruct (Nat.ltb_spec start stop) as [Hlt|Hge]; simpl.
    + destruct (IH (start + n)) as [H1 H2]; [lia|].
      split; [lia|]. right.
      destruct H2 as [->|H2]; [simpl; lia|].
      destruct (length (range_from fuel (start + n) stop n)); [lia|].
      simpl in *. rewrite Nat.sub_0_r in *. lia.
    + split; [lia | auto].
Qed.

Lemma range_from_eq_seq n fuel start stop :
  0 < n -> stop - start <= fuel ->
  range_from fuel start stop n =
  map (fun k => start + k * n)
      (seq 0 (length (range_from fuel start stop n))).
Proof.
  intros Hn. revert start.
  induction fuel as [|fuel IH]; intros start Hfuel; simpl; [done|].
  destruct (Nat.ltb_spec start stop) as [Hlt|Hge]; simpl; [|done].
  f_equal; [lia|].
  rewrite IH at 1 by lia. rewrite <- seq_shift, map_map.
  apply map_ext. intros k. lia.
Qed.
End Chunks.

Lemma math_ceil_div_spec (a b : nat) :
  0 < b ->
  exists c, math_ceil_div a b = Ok c /\ a <= c * b /\ (a = 0 /\ c = 0 \/ (c - 1) * b < a).
Proof.
  intros Hb. unfold math_ceil_div.
  destruct (Nat.eqb_spec b 0) as [->|_]; [lia|].
  pose proof (Nat.div_mod_eq a b) as Hdm.
  pose proof (Nat.mod_upper_bound a b ltac:(lia)) as Hmod.
  destruct (Nat.eqb_spec (a mod b) 0) as [Hz|Hnz]; eexists; (split; [reflexivity|]).
  - rewrite Hz in Hdm. split; [lia|].
    destruct (Nat.eq_dec a 0) as [->|Ha]; [left; split; [done|]|right].
    + rewrite Nat.Div0.div_0_l. done.
    + destruct (a / b); [lia|]. simpl. rewrite Nat.sub_0_r. nia.
  - split; [nia|]. right. replace (a / b + 1 - 1) with (a / b) by lia. nia.
Qed.

Lemma mapM_result_length {A B} (f : A -> result B) (l : list A) (r : list B) :
  mapM f l = Ok r -> length r = length l.
Proof.
  revert r. induction l as [|x l IH]; intros r; simpl.
  - intros [= <-]. done.
  - destruct (f x); simpl; [|discriminate].
    destruct (mapM f l) as [r'|]; simpl; [|discriminate].
    intros [= <-]. simpl. f_equal. by apply IH.
Qed.

Lemma mapM_first_item {A} (l : list (list A)) :
  Forall (fun c => 1 <= length c) l ->
  exists r, mapM first_item l = Ok r.
Proof.
  induction 1 as [|c l Hc _ [r IH]]; simpl; [by eexists|].
  destruct c; simpl in *; [lia|]. rewrite IH. simpl. by eexists.
Qed.

Lemma zip3_middle {A B C} (la : list A) (lb : list B) (lc : list C) :
  length la = length lb -> length lc = length lb ->
  map (fun x => snd (fst x)) (zip3 la lb lc) = lb.
Proof.
  revert la lc. induction lb as [|b lb IH]; intros [|a la] [|c lc]; simpl;
    try done.
  intros [= Ha] [= Hc]. f_equal. by apply IH.
Qed.

Lemma chunk_titles_length t k : 1 <= k -> length (chunk_titles t k) = k.
Proof.
  intros Hk. unfold chunk_titles.
  destruct (Nat.eqb_spec k 1) as [->|_]; [done|].
  by rewrite length_map, length_seq.
Qed.

Lemma ceil_unique (a b c : nat) :
  0 < b -> 0 < a -> a <= c * b -> (c - 1) * b < a -> c = (a + b - 1) / b.
Proof.
  intros Hb Ha H1 H2.
  apply (Nat.div_unique _ _ _ (a + b - 1 - b * c)); nia.
Qed.

Lemma chunk_lengths {A} (lst : list A) (n : nat) :
  map length (map (fun i => slice lst i (i + n)) (py_range (length lst) n)) =
  map (fun i => Nat.min n (length lst - i)) (py_range (length lst) n).
Proof.
  rewrite map_map. apply map_ext. intros i. apply slice_length.
Qed.

(** The chunks that [preprocess] hands to [zip]. *)
Lemma preprocess_chunks (images : list string) :
  let n := length images in
  let chunk_count := (n + 29) / 30 in
  let chunk_size := (n + chunk_count - 1) / chunk_count in
  1 <= n ->
  math_ceil_div n 30 = Ok chunk_count /\
  math_ceil_div n chunk_count = Ok chunk_size /\
  1 <= chunk_count /\ 1 <= chunk_size <= 30 /\
  length (py_range n chunk_size) = chunk_count.
Proof.
  intros n chunk_count chunk_size Hn.
  destruct (math_ceil_div_spec n 30) as (k & Hk & Hk1 & Hk2); [lia|].
  assert (1 <= k) by lia.
  assert (k = chunk_count) as <-.
  { subst chunk_count. replace (n + 29) with (n + 30 - 1) by lia.
    apply ceil_unique; lia. }
  destruct (math_ceil_div_spec n k) as (s & Hs & Hs1 & Hs2); [lia|].
  assert (1 <= s) by nia.
  assert (s = chunk_size) as <-.
  { subst chunk_size. apply ceil_unique; nia. }
  assert (s <= 30) by nia.
  repeat split; try done.
  unfold py_range.
  destruct (range_from_length s n 0 n) as [Hc1 Hc2]; [lia..|].
  set (c := length (range_from n 0 n s)) in *.
  destruct Hc2 as [Hc2|Hc2]; [nia|].
  assert (c <= k) by nia. assert (k <= c) by nia. lia.
Qed.

(** C2. For a folder with [n >= 1] images, [preprocess] (whenever it returns,
    and it always returns when no tray names are given) yields exactly
    [ceil(n/30)] packs whose image lists are the consecutive slices of
    [ceil(n/chunk_count)] images of the sorted image list: concatenated they
    give the list back (every image once, in order), each holds between 1 and
    30 images; 45 images give sizes 23 and 22, 31 give 16 and 15, 30 give one
    chunk of 30 and 1 gives one chunk of 1. *)
Theorem preprocess_partition (folder : list string) (title author : string)
    (tray_names : option (list string)) :
  let images := image_paths_of folder in
  let n := length images in
  let chunk_count := (n + 29) / 30 in
  let chunk_size := (n + chunk_count - 1) / chunk_count in
  1 <= n ->
  match preprocess folder title author tray_names with
  | Ok packs =>
      let chunks := map pi_image_paths packs in
      chunks = map (fun k => slice images (k * chunk_size)
                                   (k * chunk_size + chunk_size))
                   (seq 0 chunk_count) /\
      concat chunks = images /\
      length packs = chunk_count /\
      Forall (fun c => 1 <= length c <= 30) chunks /\
      (n = 45 -> map length chunks = [23; 22]) /\
      (n = 31 -> map length chunks = [16; 15]) /\
      (n = 30 -> map length chunks = [30]) /\
      (n = 1 -> map length chunks = [1])
  | Raise _ => tray_names <> None
  end.
Proof.
  intros images n chunk_count chunk_size Hn.
  destruct (preprocess_chunks images Hn) as (Hk & Hs & Hk1 & Hs1 & Hlen).
  fold n chunk_count chunk_size in Hk, Hs, Hk1, Hs1, Hlen.
  unfold preprocess. fold images n. rewrite Hk. simpl. rewrite Hs. simpl.
  unfold _chunks. destruct (Nat.eqb_spec chunk_size 0) as [?|_]; [lia|]. simpl.
  set (chunks := map (fun i => slice images i (i + chunk_size))
                     (py_range (length images) chunk_size)).
  assert (Hch_len : length chunks = chunk_count).
  { subst chunks. by rewrite length_map. }
  assert (Hbounds : Forall (fun c => 1 <= length c <= 30) chunks).
  { subst chunks. apply Forall_map.
    eapply Forall_impl; [apply range_from_bound|]. simpl.
    intros i Hi. rewrite slice_length. fold n. lia. }
  set (trays := match tray_names with
                | None => mapM first_item chunks
                | Some names => _
                end).
  assert (Htr : match trays with
                | Ok tr => length tr = chunk_count
                | Raise _ => tray_names <> None
                end).
  { subst trays. destruct tray_names as [names|].
    - destruct (Nat.eqb_spec (length names) chunk_count) as [Hl|_];
        [|simpl; congruence].
      destruct (mapM _ names) as [tr|] eqn:Htr; [|simpl; congruence].
      apply mapM_result_length in Htr. lia.
    - destruct (mapM_first_item chunks) as [tr Htr].
      { eapply Forall_impl; [apply Hbounds|]. simpl. lia. }
      rewrite Htr. apply mapM_result_length in Htr. lia. }
  destruct trays as [tr|e]; simpl; [|done].
  assert (Hmap : map pi_image_paths
            (map (fun '(t, ipp, tp) =>
                    {| pi_title := t; pi_author := author;
                       pi_image_paths := ipp; pi_tray_path := tp |})
                 (zip3 (chunk_titles title chunk_count) chunks tr)) = chunks).
  { rewrite map_map.
    rewrite <- (zip3_middle (chunk_titles title chunk_count) chunks tr) at 2.
    - apply map_ext. by intros [[t ipp] tp].
    - rewrite chunk_titles_length by done. lia.
    - lia. }
  assert (Hpl := f_equal length Hmap). rewrite length_map in Hpl.
  rewrite Hmap.
  assert (Hlens : map length chunks =
            map (fun i => Nat.min chunk_size (n - i)) (py_range n chunk_size)).
  { subst chunks. apply chunk_lengths. }
  repeat split.
  - subst chunks. unfold py_range in *.
    rewrite (range_from_eq_seq chunk_size) by (fold n; lia).
    fold n. rewrite Hlen, map_map. apply map_ext. intros k. f_equal; lia.
  - subst chunks. unfold py_range.
    rewrite range_from_concat by lia. apply drop_0.
  - rewrite Hpl. done.
  - done.
  - intros E. rewrite Hlens. subst chunk_size chunk_count. rewrite E. done.
  - intros E. rewrite Hlens. subst chunk_size chunk_count. rewrite E. done.
  - intros E. rewrite Hlens. subst chunk_size chunk_count. rewrite E. done.
  - intros E. rewrite Hlens. subst chunk_size chunk_count. rewrite E. done.
Qed.

(** ** [round] and the scaled dimensions *)

Lemma py_round_comp (q q' : Q) : (q == q')%Q -> py_round q = py_round q'.
Proof.
  intros H. unfold py_round.
  assert (Hf : Qfloor q = Qfloor q') by (by apply Qfloor_comp).
  rewrite Hf.
  assert (Hc : (q - inject_Z (Qfloor q') ?= 1 # 2)%Q =
               (q' - inject_Z (Qfloor q') ?= 1 # 2)%Q).
  { apply Qcompare_comp; [|reflexivity]. rewrite H. reflexivity. }
  rewrite Hc. done.
Qed.

Lemma py_round_Z (z : Z) : py_round (inject_Z z) = z.
Proof.
  unfold py_round. rewrite Qfloor_Z.
  assert (Hc : (inject_Z z - inject_Z z ?= 1 # 2)%Q = Lt).
  { apply (proj1 (Qlt_alt _ _)).
    unfold Qlt, Qminus, Qplus, Qopp, inject_Z. simpl. lia. }
  rewrite Hc. done.
Qed.

Lemma py_round_floor (q : Q) :
  (Qfloor q <= py_round q <= Qfloor q + 1)%Z.
Proof.
  unfold py_round.
  destruct (q - inject_Z (Qfloor q) ?= 1 # 2)%Q; [destruct (Z.even _)|..]; lia.
Qed.

Lemma py_round_le (q : Q) (n : Z) : (q <= inject_Z n)%Q -> (py_round q <= n)%Z.
Proof.
  intros Hq.
  pose proof (Qfloor_resp_le _ _ Hq) as Hf. rewrite Qfloor_Z in Hf.
  destruct (Z.eq_dec (Qfloor q) n) as [E|NE].
  - assert (Hqn : (q == inject_Z n)%Q).
    { apply Qle_antisym; [done|]. rewrite <- E. apply Qfloor_le. }
    rewrite (py_round_comp _ _ Hqn). rewrite py_round_Z. lia.
  - pose proof (py_round_floor q). lia.
Qed.

Lemma py_round_nonneg (q : Q) : (0 <= q)%Q -> (0 <= py_round q)%Z.
Proof.
  intros Hq. pose proof (Qfloor_resp_le _ _ Hq) as Hf.
  change (Qfloor 0) with 0%Z in Hf.
  pose proof (py_round_floor q). lia.
Qed.

Section Scaling.
Variables (m pixels : Z).
Hypothesis Hm : (0 < m)%Z.
Hypothesis Hpixels : (0 <= pixels)%Z.

Let ratio : Q := (inject_Z pixels / inject_Z m)%Q.

Lemma inject_pos_neq : ~ (inject_Z m == 0)%Q.
Proof.
  change 0%Q with (inject_Z 0). rewrite inject_Z_injective. lia.
Qed.

Lemma ratio_nonneg : (0 <= ratio)%Q.
Proof.
  unfold ratio, Qdiv. apply Qmult_le_0_compat.
  - change 0%Q with (inject_Z 0). rewrite <- Zle_Qle. lia.
  - apply Qinv_le_0_compat.
    change 0%Q with (inject_Z 0). rewrite <- Zle_Qle. lia.
Qed.

(** The spec writes [w * N / max(w, h)], the code [w * (N / max(w, h))]. *)
Lemma scaled_assoc (w : Z) :
  (inject_Z w * ratio == inject_Z (w * pixels) / inject_Z m)%Q.
Proof.
  unfold ratio. rewrite inject_Z_mult. field. apply inject_pos_neq.
Qed.

Lemma scaled_max : py_round (inject_Z m * ratio) = pixels.
Proof.
  transitivity (py_round (inject_Z pixels)); [|apply py_round_Z].
  apply py_round_comp. unfold ratio. field. apply inject_pos_neq.
Qed.

Lemma scaled_le (w : Z) :
  (w <= m)%Z -> (py_round (inject_Z w * ratio) <= pixels)%Z.
Proof.
  intros Hw. apply py_round_le.
  assert (E : (inject_Z pixels == inject_Z m * ratio)%Q).
  { unfold ratio. field. apply inject_pos_neq. }
  rewrite E. apply Qmult_le_compat_r; [|apply ratio_nonneg].
  rewrite <- Zle_Qle. done.
Qed.

Lemma scaled_nonneg (w : Z) :
  (0 <= w)%Z -> (0 <= py_round (inject_Z w * ratio))%Z.
Proof.
  intros Hw. apply py_round_nonneg. apply Qmult_le_0_compat.
  - change 0%Q with (inject_Z 0). rewrite <- Zle_Qle. done.
  - apply ratio_nonneg.
Qed.
End Scaling.

(** ** [_squarify] *)

Section Squarify.
Variable P : Platform.

Lemma squarify_shape (im sq : Image) (pixels : Z) :
  _squarify P im pixels = Ok sq ->
  im_width sq = scaled_side im pixels /\
  im_height sq = scaled_side im pixels /\
  im_mode sq = "RGBA" /\ im_format sq = None /\
  length (im_data sq) =
    Z.to_nat (scaled_side im pixels * scaled_side im pixels).
Proof.
  unfold _squarify.
  destruct (Z.max (im_width im) (im_height im) =? 0)%Z; [discriminate|].
  intros [= <-]. simpl. rewrite length_imap, length_replicate. done.
Qed.

Lemma squarify_defined (im : Image) (pixels : Z) :
  Z.max (im_width im) (im_height im) <> 0%Z ->
  exists sq, _squarify P im pixels = Ok sq.
Proof.
  intros Hm. unfold _squarify.
  destruct (Z.eqb_spec (Z.max (im_width im) (im_height im)) 0); [done|].
  by eexists.
Qed.

Lemma scaled_side_target (im : Image) (pixels : Z) :
  (0 <= im_width im)%Z -> (0 <= im_height im)%Z ->
  (0 < Z.max (im_width im) (im_height im))%Z -> (0 <= pixels)%Z ->
  scaled_side im pixels = pixels.
Proof.
  intros Hw Hh Hm Hp. unfold scaled_side.
  set (m := Z.max (im_width im) (im_height im)) in *.
  pose proof (scaled_max m pixels Hm) as Hmax.
  pose proof (scaled_le m pixels Hm Hp) as Hle.
  simpl in Hmax, Hle.
  pose proof (Hle (im_width im) ltac:(lia)) as Hlw.
  pose proof (Hle (im_height im) ltac:(lia)) as Hlh.
  destruct (Z.max_spec (im_width im) (im_height im)) as [[_ E]|[_ E]];
    fold m in E; rewrite <- E; rewrite Hmax; lia.
Qed.

(** On an image with non-negative sides, not both zero, [_squarify] returns
    an "RGBA" square of side [pixels] exactly. *)
Lemma squarify_target (im : Image) (pixels : Z) :
  (0 <= im_width im)%Z -> (0 <= im_height im)%Z ->
  (0 < Z.max (im_width im) (im_height im))%Z -> (0 <= pixels)%Z ->
  exists sq, _squarify P im pixels = Ok sq /\
    im_width sq = pixels /\ im_height sq = pixels /\
    im_mode sq = "RGBA" /\ im_format sq = None /\
    length (im_data sq) = Z.to_nat (pixels * pixels).
Proof.
  intros Hw Hh Hm Hp.
  destruct (squarify_defined im pixels) as [sq Hsq]; [lia|].
  exists sq. split; [done|].
  apply squarify_shape in Hsq.
  rewrite scaled_side_target in Hsq by done. done.
Qed.

Hypothesis laws : PlatformLaws P.

(** Pasting a whole [n] by [n] "RGBA" image at the origin of an [n] by [n]
    canvas leaves exactly the data of that image. *)
Lemma paste_cover (dst src : Image) (n : Z) :
  (0 < n)%Z ->
  im_width dst = n -> im_width src = n -> im_height src = n ->
  im_mode src = "RGBA" ->
  length (im_data dst) = Z.to_nat (n * n) ->
  length (im_data src) = Z.to_nat (n * n) ->
  im_data (paste P dst src 0 0) = im_data src.
Proof.
  intros Hn Hwd Hws Hhs Hmode Hld Hls. simpl.
  apply list_eq. intros i. rewrite list_lookup_imap.
  destruct (im_data dst !! i) as [old|] eqn:Hold; simpl.
  - apply lookup_lt_Some in Hold. rewrite Hld in Hold.
    rewrite Hwd, Hws, Hhs, Hmode.
    assert (Hi : (0 <= Z.of_nat i < n * n)%Z) by lia.
    pose proof (Z.mod_pos_bound (Z.of_nat i) n Hn) as Hx.
    assert (Hy : (0 <= Z.of_nat i / n < n)%Z).
    { split; [apply Z.div_pos; lia | apply Z.div_lt_upper_bound; lia]. }
    replace ((0 <=? Z.of_nat i mod n)%Z) with true by (symmetry; apply Z.leb_le; lia).
    replace ((Z.of_nat i mod n <? 0 + n)%Z) with true by (symmetry; apply Z.ltb_lt; lia).
    replace ((0 <=? Z.of_nat i / n)%Z) with true by (symmetry; apply Z.leb_le; lia).
    replace ((Z.of_nat i / n <? 0 + n)%Z) with true by (symmetry; apply Z.ltb_lt; lia).
    simpl. rewrite (convert_rgba_id P laws).
    unfold getpixel. rewrite Hws, !Z.sub_0_r.
    replace (Z.of_nat i / n * n + Z.of_nat i mod n)%Z with (Z.of_nat i)
      by (pose proof (Z.div_mod (Z.of_nat i) n ltac:(lia)); lia).
    rewrite Nat2Z.id.
    destruct (im_data src !! i) eqn:Hsrc; [done|].
    apply lookup_ge_None in Hsrc. unfold Pixel in *. lia.
  - apply lookup_ge_None in Hold. symmetry. apply lookup_ge_None.
    unfold Pixel in *. lia.
Qed.

(** [_squarify] is the identity (up to [copy]) on an "RGBA" square of the
    target side. *)
Lemma squarify_noop (im : Image) (n : Z) :
  (0 < n)%Z -> im_width im = n -> im_height im = n ->
  im_mode im = "RGBA" -> length (im_data im) = Z.to_nat (n * n) ->
  _squarify P im n = Ok (image_copy im).
Proof.
  intros Hn Hw Hh Hmode Hlen. unfold _squarify.
  pose proof (resize_same P laws im) as Hr. rewrite Hw, Hh in Hr.
  rewrite Hw, Hh, Z.max_id.
  destruct (Z.eqb_spec n 0) as [?|_]; [lia|].
  pose proof (scaled_max n n Hn) as Hs. simpl in Hs. rewrite Hs.
  rewrite Z.max_id, Z.sub_diag. change (Z.quot 0 2) with 0%Z.
  rewrite Hr.
  f_equal. unfold image_copy at 2. rewrite Hmode, Hw, Hh.
  assert (Hd : im_data (paste P (image_new "RGBA" n n [0; 0; 0; 1]%Z)
                          (image_copy im) 0 0) = im_data im).
  { apply (paste_cover _ (image_copy im) n); simpl; try done.
    by rewrite length_replicate. }
  unfold paste in *. simpl in *. rewrite Hd. done.
Qed.
End Squarify.


(** ** [StickerPack.save] *)

Section Save.
Variable P : Platform.

Lemma write_stickers_ok (items : list (string * Image)) (zf zf' : Archive) :
  write_stickers P items zf = (Ok (), zf') ->
  exists es, Forall2 (sticker_entry P) items es /\ zf' = zf ++ es.
Proof.
  revert zf. induction items as [|[name img] items IH]; intros zf; simpl.
  - intros [= <-]. exists []. split; [constructor | by rewrite app_nil_r].
  - destruct (_squarify P img 512) as [sq|] eqn:Hsq; [|discriminate].
    intros H. apply IH in H as (es & Hes & ->).
    exists ((name, save_webp P sq) :: es). split.
    + constructor; [by exists sq | done].
    + by rewrite <- app_assoc.
Qed.

Lemma write_stickers_defined (items : list (string * Image)) (zf : Archive) :
  Forall (fun item => exists sq, _squarify P item.2 512 = Ok sq) items ->
  exists zf', write_stickers P items zf = (Ok (), zf').
Proof.
  intros H. revert zf.
  induction H as [|[name img] items [sq Hsq] _ IH]; intros zf; simpl.
  - by eexists.
  - simpl in Hsq. rewrite Hsq. apply IH.
Qed.

Lemma save_ok_inv self w fname folder overwrite self' w' :
  save P self w fname folder overwrite = (Ok (), self', w') ->
  exists tray0 tray es,
    check self = Ok () /\
    tray_source self = Ok tray0 /\
    (overwrite = true \/ files w !! save_path self w fname folder = None) /\
    _squarify P tray0 96 = Ok tray /\
    Forall2 (sticker_entry P) (sticker_imgs self) es /\
    self' = set_tray_img self tray /\
    w' = set_file w (save_path self w fname folder)
                  (ZipFile (head_entries P self tray ++ es)).
Proof.
  unfold save. destruct (check self) as [[]|] eqn:Hc; [|intros [=]].
  fold (tray_source self).
  destruct (tray_source self) as [tray0|] eqn:Ht; [|intros [=]].
  destruct (negb overwrite && bool_decide _) eqn:Hex; [intros [=]|].
  destruct (_squarify P tray0 96) as [tray|] eqn:Hsq; [|intros [=]].
  simpl.
  destruct (write_stickers _ _ _) as [r zf] eqn:Hws.
  intros [= -> <- <-].
  apply write_stickers_ok in Hws as (es & Hes & ->).
  exists tray0, tray, es. repeat split; try done.
  apply andb_false_iff in Hex as [Hex|Hex].
  - left. by destruct overwrite.
  - right. apply bool_decide_eq_false in Hex.
    by apply eq_None_not_Some.
Qed.

Lemma save_ok_intro self w fname folder overwrite tray0 tray :
  check self = Ok () ->
  tray_source self = Ok tray0 ->
  (overwrite = true \/ files w !! save_path self w fname folder = None) ->
  _squarify P tray0 96 = Ok tray ->
  Forall (fun item => exists sq, _squarify P item.2 512 = Ok sq)
         (sticker_imgs self) ->
  exists es,
    Forall2 (sticker_entry P) (sticker_imgs self) es /\
    save P self w fname folder overwrite =
      (Ok (), set_tray_img self tray,
       set_file w (save_path self w fname folder)
                (ZipFile (head_entries P self tray ++ es))).
Proof.
  intros Hc Ht Hov Hsq Hst. unfold save. rewrite Hc.
  fold (tray_source self). rewrite Ht.
  assert (Hex : negb overwrite &&
            bool_decide (is_Some (files w !! save_path self w fname folder))
          = false).
  { destruct Hov as [->|Hnone]; [done|].
    rewrite Hnone. apply andb_false_iff. right.
    apply bool_decide_eq_false. by intros [? [=]]. }
  change (save_path (set_tray_img self tray0) w fname folder)
    with (save_path self w fname folder).
  rewrite Hex, Hsq. simpl.
  destruct (write_stickers_defined (sticker_imgs self)
              (head_entries P self tray) Hst) as [zf Hzf].
  unfold head_entries in Hzf. simpl in Hzf. rewrite Hzf.
  apply write_stickers_ok in Hzf as (es & Hes & ->).
  exists es. done.
Qed.
End Save.

(** C10. Whatever [save] does (success or any exception), the pack object
    afterwards has the sticker mapping it had before, same keys in the same
    order with the same images, and the same [file_name], [title] and
    [author]: [tray_img] is the only field that can differ. *)
Theorem save_frame (P : Platform) (self : StickerPack) (w : World)
    (fname folder : option string) (overwrite : bool) :
  let self' := (save P self w fname folder overwrite).1.2 in
  sticker_imgs self' = sticker_imgs self /\
  file_name self' = file_name self /\
  title self' = title self /\
  author self' = author self.
Proof.
  unfold save. destruct (check self); [|done].
  destruct (match tray_img self with None => _ | Some im => _ end); [|done].
  destruct (negb overwrite && _); [done|].
  destruct (_squarify P _ 96); [|done].
  simpl. destruct (write_stickers _ _ _). done.
Qed.

(** C9. For a pack that passes [check] and a destination at which a file
    exists, [save] with [overwrite=False] raises [FileExistsError] for that
    path and leaves the file system as it was; in particular the file at the
    destination is the one that was there. *)
Theorem save_no_overwrite (P : Platform) (self : StickerPack) (w : World)
    (fname folder : option string) (f : File) :
  check self = Ok () ->
  files w !! save_path self w fname folder = Some f ->
  let out := save P self w fname folder false in
  out.1.1 = Raise (FileExistsError (save_path self w fname folder)) /\
  out.2 = w /\
  files out.2 !! save_path self w fname folder = Some f.
Proof.
  intros Hc Hf. unfold save. rewrite Hc.
  assert (Ht : exists tray, tray_source self = Ok tray).
  { apply check_ok_iff in Hc as (_ & _ & Hn & _). unfold tray_source.
    destruct (tray_img self); [by eexists|].
    destruct (sticker_imgs self) as [|[k v] l]; simpl in *; [lia|by eexists]. }
  destruct Ht as [tray Ht]. unfold tray_source in Ht. rewrite Ht.
  change (save_path (set_tray_img self tray) w fname folder)
    with (save_path self w fname folder).
  rewrite Hf. simpl. done.
Qed.

Lemma sticker_entry_fun (P : Platform) (items : list (string * Image))
    (es es' : Archive) :
  Forall2 (sticker_entry P) items es -> Forall2 (sticker_entry P) items es' ->
  es = es'.
Proof.
  intros H. revert es'. induction H as [|item e items es [sq [Hsq ->]] _ IH];
    intros es' H'; inversion H' as [|? e' ? es'' [sq' [Hsq' ->]] Hrest]; subst.
  - done.
  - rewrite Hsq in Hsq'. injection Hsq' as <-. f_equal. by apply IH.
Qed.

Lemma sticker_entry_defined (P : Platform) (items : list (string * Image))
    (es : Archive) :
  Forall2 (sticker_entry P) items es ->
  Forall (fun item => exists sq, _squarify P item.2 512 = Ok sq) items.
Proof.
  induction 1 as [|item e items es [sq [Hsq _]] _ IH]; constructor; eauto.
Qed.

Lemma squarify_nonzero (P : Platform) (im sq : Image) (pixels : Z) :
  _squarify P im pixels = Ok sq ->
  Z.max (im_width im) (im_height im) <> 0%Z.
Proof.
  unfold _squarify.
  destruct (Z.eqb_spec (Z.max (im_width im) (im_height im)) 0); [discriminate|done].
Qed.

Lemma image_copy_id (im : Image) : im_format im = None -> image_copy im = im.
Proof. destruct im; simpl; intros ->; done. Qed.

(** The result of [_squarify] is a fixed point of [_squarify]. *)
Lemma squarify_again (P : Platform) (laws : PlatformLaws P)
    (im sq : Image) (n : Z) :
  (0 < n)%Z -> valid_size im ->
  _squarify P im n = Ok sq -> _squarify P sq n = Ok sq.
Proof.
  intros Hn [Hw Hh] Hsq.
  pose proof (squarify_nonzero P im sq n Hsq) as Hnz.
  apply squarify_shape in Hsq.
  rewrite scaled_side_target in Hsq by lia.
  destruct Hsq as (Hsw & Hsh & Hmode & Hfmt & Hlen).
  rewrite (squarify_noop P laws sq n) by done.
  by rewrite image_copy_id.
Qed.

(** C8. [_squarify] on a square image whose side is the target [N] returns
    an [N] by [N] square on which [_squarify] changes nothing, and the input
    itself (mode, size and every pixel) when that input is an "RGBA" image;
    so after a successful [save], saving the same pack object again (with
    [overwrite=True]) succeeds with the same tray image, the same pack and
    the same archive. *)
Theorem squarify_idempotent (P : Platform) (laws : PlatformLaws P) :
  (forall (im : Image) (N : Z),
     (0 < N)%Z -> im_width im = N -> im_height im = N ->
     exists sq, _squarify P im N = Ok sq /\
       im_width sq = N /\ im_height sq = N /\
       _squarify P sq N = Ok sq /\
       (im_mode im = "RGBA" -> length (im_data im) = Z.to_nat (N * N) ->
        sq = image_copy im)) /\
  (forall (self self' : StickerPack) (w w' : World)
          (fname folder : option string) (overwrite : bool) (tray0 : Image),
     tray_source self = Ok tray0 -> valid_size tray0 ->
     save P self w fname folder overwrite = (Ok (), self', w') ->
     save P self' w' fname folder true = (Ok (), self', w')).
Proof.
  split.
  - intros im N HN Hw Hh.
    assert (Hv : valid_size im) by (unfold valid_size; lia).
    destruct (squarify_target P im N) as (sq & Hsq & Hsw & Hsh & _); [lia..|].
    exists sq. repeat split; try done.
    + by apply (squarify_again P laws im).
    + intros Hmode Hlen.
      rewrite (squarify_noop P laws im N) in Hsq by done. congruence.
  - intros self self' w w' fname folder overwrite tray0 Ht0 Hv Hsave.
    apply save_ok_inv in Hsave
      as (tray0' & tray & es & Hc & Ht & _ & Hsq & Hes & -> & ->).
    rewrite Ht0 in Ht. injection Ht as <-.
    pose proof (squarify_again P laws tray0 tray 96 ltac:(lia) Hv Hsq) as Hfix.
    destruct (save_ok_intro P (set_tray_img self tray)
                (set_file w (save_path self w fname folder)
                   (ZipFile (head_entries P self tray ++ es)))
                fname folder true tray tray)
      as (es' & Hes' & ->); try done.
    + by left.
    + by apply (sticker_entry_defined P _ es).
    + simpl in Hes'. rewrite (sticker_entry_fun P _ _ _ Hes' Hes).
      f_equal. unfold set_file. simpl. f_equal.
      change (save_path (set_tray_img self tray)
                {| cwd := cwd w;
                   files := <[save_path self w fname folder :=
                              ZipFile (head_entries P self tray ++ es)]> (files w) |}
                fname folder)
        with (save_path self w fname folder).
      by rewrite insert_insert_eq.
Qed.

(** ** [check_valid_wastickers] *)

Lemma check_valid_as_rules (P : Platform) (w : World) (filepath : string) :
  check_valid_wastickers P w filepath = spec_validate P w filepath.
Proof.
  unfold check_valid_wastickers, check_body, spec_validate, spec_rules,
    first_violation, spec_rule_extension, spec_rule_archive,
    spec_rule_tray_entry, spec_rule_tray_image, spec_rule_stickers,
    spec_rule_metadata, is_zipfile, open_zip.
  destruct (bool_decide (path_suffix filepath = ".wastickers")); simpl; [|done].
  destruct (files w !! filepath) as [[zf|]|]; simpl; [|done..].
  destruct (length (filter _ (namelist zf)) =? 1); simpl; [|done].
  destruct (bool_decide ("tray.png" ∈ namelist zf)); simpl; [|done].
  destruct (check_tray P zf) as [[]|e]; simpl; [|done].
  destruct (andb _ _); simpl; [|done].
  destruct (for_each _ _) as [[]|e]; simpl; [|done].
  destruct (bool_decide ("title.txt" ∈ namelist zf)); simpl; [|done].
  destruct (bool_decide ("author.txt" ∈ namelist zf)); simpl; done.
Qed.

Lemma first_violation_at (rules pre post : list (World -> string -> result unit))
    (rule : World -> string -> result unit) (w : World) (filepath : string)
    (e : exn) :
  rules = pre ++ rule :: post ->
  Forall (fun r => r w filepath = Ok ()) pre ->
  rule w filepath = Raise e ->
  first_violation rules w filepath = Raise e.
Proof.
  intros -> Hpre Hrule. induction Hpre as [|r pre Hr _ IH]; simpl.
  - by rewrite Hrule.
  - by rewrite Hr.
Qed.

Lemma first_violation_none (rules : list (World -> string -> result unit))
    (w : World) (filepath : string) :
  Forall (fun r => r w filepath = Ok ()) rules ->
  first_violation rules w filepath = Ok ().
Proof. induction 1 as [|r rules Hr _ IH]; simpl; [done|by rewrite Hr]. Qed.

(** C3. [check_valid_wastickers] is the validator of the specification: it
    applies the rules in the listed order (extension, archive, tray entry,
    tray image, stickers, metadata) and reports the first one violated,
    whatever the later rules would say; it succeeds when none is violated;
    and for a container that passes the first five rules and has no
    [author.txt] it reports a missing metadata file ("Must have author.txt
    file", or "Must have title.txt file" when that one is missing too). *)
Theorem validate_first_violation (P : Platform) (w : World) (filepath : string) :
  check_valid_wastickers P w filepath = spec_validate P w filepath /\
  (forall pre rule post r,
     spec_rules P = pre ++ rule :: post ->
     Forall (fun r' => r' w filepath = Ok ()) pre ->
     rule w filepath = Raise (AssertionError r) ->
     check_valid_wastickers P w filepath = Raise (InvalidWastickersFile r)) /\
  (Forall (fun r' => r' w filepath = Ok ()) (spec_rules P) ->
     check_valid_wastickers P w filepath = Ok ()) /\
  (forall zf,
     files w !! filepath = Some (ZipFile zf) ->
     Forall (fun r' => r' w filepath = Ok ()) (take 5 (spec_rules P)) ->
     "author.txt" ∉ namelist zf ->
     check_valid_wastickers P w filepath =
       Raise (InvalidWastickersFile
                (if bool_decide ("title.txt" ∈ namelist zf)
                 then NoAuthorFile else NoTitleFile))).
Proof.
  rewrite check_valid_as_rules. split; [done|]. split; [|split].
  - intros pre rule post r Hsplit Hpre Hrule. unfold spec_validate.
    by rewrite (first_violation_at _ pre post rule w filepath _ Hsplit Hpre Hrule).
  - intros Hall. unfold spec_validate. by rewrite first_violation_none.
  - intros zf Hzf Hpre Hauthor. unfold spec_validate.
    rewrite (first_violation_at (spec_rules P) (take 5 (spec_rules P)) []
               spec_rule_metadata w filepath
               (AssertionError (if bool_decide ("title.txt" ∈ namelist zf)
                                then NoAuthorFile else NoTitleFile)));
      try done.
    unfold spec_rule_metadata, open_zip. rewrite Hzf. simpl.
    destruct (bool_decide ("title.txt" ∈ namelist zf)); simpl; [|done].
    by rewrite bool_decide_eq_false_2.
Qed.

Lemma for_each_ok {A} (body : A -> result unit) (l : list A) :
  Forall (fun x => body x = Ok ()) l -> for_each body l = Ok ().
Proof. induction 1 as [|x l Hx _ IH]; simpl; [done|by rewrite Hx]. Qed.

(** C5. For a container that passes the extension, archive and tray rules,
    whose [.webp] entries each pass the per-entry checks (WEBP format, 512 by
    512, under 100 KiB) and that holds [title.txt] and [author.txt], the
    validator succeeds when the number of [.webp] entries is between 1 and 30
    and reports "Must have 3 to 30 .webp files" otherwise (so it accepts 1
    and 2 entries and rejects 0 and 31); [StickerPack.check] rejects a pack
    with as many stickers when that number is below 3. *)
Theorem webp_count_range (P : Platform) (w : World) (filepath : string)
    (zf : Archive) :
  files w !! filepath = Some (ZipFile zf) ->
  Forall (fun r' => r' w filepath = Ok ()) (take 4 (spec_rules P)) ->
  let webps := filter (fun name => endswith name ".webp" = true) (namelist zf) in
  Forall (fun name => check_webp P zf name = Ok ()) webps ->
  "title.txt" ∈ namelist zf -> "author.txt" ∈ namelist zf ->
  (1 <= length webps <= 30 -> check_valid_wastickers P w filepath = Ok ()) /\
  (~ (1 <= length webps <= 30) ->
     check_valid_wastickers P w filepath =
       Raise (InvalidWastickersFile WebpCount)) /\
  (forall self : StickerPack,
     length (sticker_imgs self) = length webps -> length webps < 3 ->
     exists e, check self = Raise (InvalidStickerPack e)).
Proof.
  intros Hzf Hpre webps Hwebps Htitle Hauthor.
  rewrite check_valid_as_rules. unfold spec_validate.
  split; [|split].
  - intros Hn. rewrite first_violation_none; [done|].
    change (spec_rules P) with
      (take 4 (spec_rules P) ++ [spec_rule_stickers P; spec_rule_metadata]).
    apply Forall_app. split; [done|].
    repeat constructor.
    + unfold spec_rule_stickers, open_zip. rewrite Hzf.
      unfold mbind, result_bind. cbv beta iota zeta. fold webps.
      destruct (Nat.leb_spec 1 (length webps)); [|lia].
      destruct (Nat.leb_spec (length webps) 30); [|lia].
      cbv beta iota delta [assert_ andb]. by apply for_each_ok.
    + unfold spec_rule_metadata, open_zip. rewrite Hzf. simpl.
      rewrite !bool_decide_eq_true_2 by done. done.
  - intros Hn.
    rewrite (first_violation_at (spec_rules P) (take 4 (spec_rules P))
               [spec_rule_metadata] (spec_rule_stickers P) w filepath
               (AssertionError WebpCount)); try done.
    unfold spec_rule_stickers, open_zip. rewrite Hzf.
    unfold mbind, result_bind. cbv beta iota zeta. fold webps.
    destruct (Nat.leb_spec 1 (length webps));
      destruct (Nat.leb_spec (length webps) 30);
      cbv beta iota delta [assert_ andb]; try done. lia.
  - intros self Hlen Hlt. unfold check.
    destruct (decide (title self = EmptyString)); [by eexists|].
    destruct (decide (author self = EmptyString)); [by eexists|].
    rewrite Hlen.
    destruct (Nat.leb_spec 3 (length webps)); [lia|]. simpl. by eexists.
Qed.

(** ** Strings and paths *)

Lemma chars_of_chars (l : list ascii) : chars (of_chars l) = l.
Proof. apply String.list_ascii_of_string_of_list_ascii. Qed.

Lemma of_chars_chars (s : string) : of_chars (chars s) = s.
Proof. apply String.string_of_list_ascii_of_string. Qed.

Lemma chars_app (a b : string) : chars (a +:+ b) = chars a ++ chars b.
Proof. induction a as [|c a IH]; simpl; [done|]. unfold chars in *. by rewrite IH. Qed.

Lemma chars_inj (a b : string) : chars a = chars b -> a = b.
Proof. intros H. by rewrite <- (of_chars_chars a), H, of_chars_chars. Qed.

Lemma endswith_webp_not_png (name : string) :
  endswith name ".webp" = true -> endswith (lower name) ".png" = false.
Proof.
  unfold endswith, lower. intros H. apply bool_decide_eq_true in H.
  destruct H as [k Hk]. apply bool_decide_eq_false. intros [k' Hk'].
  rewrite chars_of_chars, Hk, map_app in Hk'.
  apply (f_equal reverse) in Hk'. rewrite !reverse_app in Hk'.
  vm_compute in Hk'. discriminate Hk'.
Qed.

Lemma rfind_lt (c : ascii) (l : list ascii) (i : nat) :
  rfind c l = Some i -> i < length l.
Proof.
  revert i. induction l as [|x l IH]; intros i; simpl; [done|].
  destruct (rfind c l) as [j|].
  - intros [= <-]. specialize (IH j eq_refl). lia.
  - destruct (decide (x = c)); [|done]. intros [= <-]. lia.
Qed.

Lemma rfind_app (c : ascii) (a b : list ascii) :
  rfind c (a ++ b) =
  match rfind c b with
  | Some i => Some (length a + i)
  | None => rfind c a
  end.
Proof.
  induction a as [|x a IH]; simpl.
  - by destruct (rfind c b).
  - rewrite IH. by destruct (rfind c b).
Qed.

(** The final component of a path, on characters. *)
Lemma path_name_chars (p : string) :
  chars (path_name p) =
  match rfind "/"%char (chars p) with
  | Some i => drop (S i) (chars p)
  | None => chars p
  end.
Proof.
  unfold path_name. destruct (rfind _ _); [apply chars_of_chars|done].
Qed.

Lemma path_name_app (a b : string) :
  rfind "/"%char (chars b) = None ->
  chars (path_name (a +:+ b)) = chars (path_name a) ++ chars b.
Proof.
  intros Hb. rewrite !path_name_chars, chars_app, rfind_app, Hb.
  destruct (rfind "/"%char (chars a)) as [i|] eqn:Hi; [|done].
  apply rfind_lt in Hi. rewrite drop_app_le by lia. done.
Qed.

Lemma path_name_slash (a b : string) :
  path_name (a +:+ "/" +:+ b) = path_name b.
Proof.
  apply chars_inj. rewrite !path_name_chars, !chars_app, rfind_app.
  change (chars "/") with ["/"%char]. simpl.
  destruct (rfind "/"%char (chars b)) as [i|] eqn:Hi.
  - rewrite drop_app_ge by lia.
    replace (S (length (chars a) + S i) - length (chars a)) with (S (S i)) by lia.
    done.
  - rewrite drop_app_ge by lia.
    replace (S (length (chars a) + 0) - length (chars a)) with 1 by lia.
    done.
Qed.

Lemma path_name_join (folder file_path : string) :
  path_name (path_join folder file_path) = path_name file_path.
Proof.
  unfold path_join. destruct (startswith file_path "/"); [done|].
  apply path_name_slash.
Qed.

(** The name [save] gives its archive ends in [.wastickers] as long as the
    chosen file name does not end in a slash. *)
Lemma save_path_suffix (self : StickerPack) (w : World)
    (fname folder : option string) :
  path_name (save_file_name self fname) <> EmptyString ->
  path_suffix (save_path self w fname folder) = ".wastickers".
Proof.
  intros Hname. unfold save_path, path_suffix.
  rewrite path_name_join, path_name_app by done.
  set (nm := chars (path_name (save_file_name self fname))).
  assert (Hnm : 0 < length nm).
  { destruct nm eqn:E; simpl; [|lia]. exfalso. apply Hname.
    apply chars_inj. exact E. }
  rewrite rfind_app. change (rfind "."%char (chars ".wastickers")) with (Some 0).
  rewrite length_app. change (length (chars ".wastickers")) with 11.
  destruct (Nat.ltb_spec 0 (length nm + 0)); [|lia].
  destruct (Nat.ltb_spec (length nm + 0) (length nm + 11 - 1)); [|lia].
  simpl. rewrite drop_app_ge by lia.
  replace (length nm + 0 - length nm) with 0 by lia.
  done.
Qed.

(** ** Zip archives *)

Lemma zip_find_app (a b : Archive) (name : string) :
  zip_find (a ++ b) name =
  match zip_find b name with
  | Some x => Some x
  | None => zip_find a name
  end.
Proof.
  induction a as [|[n x] a IH]; simpl.
  - by destruct (zip_find b name).
  - rewrite IH. by destruct (zip_find b name).
Qed.

Lemma zip_find_None (zf : Archive) (name : string) :
  name ∉ namelist zf -> zip_find zf name = None.
Proof.
  unfold namelist. induction zf as [|[n x] zf IH]; simpl; [done|].
  intros Hn. apply not_elem_of_cons in Hn as [Hne Hn].
  rewrite (IH Hn). by rewrite decide_False.
Qed.

Lemma zip_find_Some (zf : Archive) (name : string) :
  name ∈ namelist zf -> exists b, zip_find zf name = Some b /\ (name, b) ∈ zf.
Proof.
  unfold namelist. induction zf as [|[n x] zf IH]; simpl.
  - intros H. by apply elem_of_nil in H.
  - intros H. destruct (decide (name ∈ zf.*1)) as [Hin|Hnin].
    + destruct (IH Hin) as (b & -> & Hb). exists b. split; [done|].
      by apply elem_of_cons; right.
    + apply elem_of_cons in H as [->|H]; [|done].
      rewrite (zip_find_None zf n Hnin), decide_True by done.
      exists x. split; [done|]. by apply elem_of_cons; left.
Qed.

Lemma entries_names (P : Platform) (items : list (string * Image))
    (es : Archive) :
  Forall2 (sticker_entry P) items es -> es.*1 = items.*1.
Proof.
  induction 1 as [|item e its es' [sq [_ ->]] _ IH]; [done|].
  rewrite !fmap_cons. by f_equal.
Qed.

Lemma entries_elem (P : Platform) (items : list (string * Image))
    (es : Archive) (e : string * bytes) :
  Forall2 (sticker_entry P) items es ->
  e ∈ es ->
  exists item sq, item ∈ items /\ _squarify P item.2 512 = Ok sq /\
    e = (item.1, save_webp P sq).
Proof.
  induction 1 as [|item e' its es' [sq [Hsq ->]] _ IH].
  - intros H. by apply elem_of_nil in H.
  - intros H. apply elem_of_cons in H as [->|H].
    + exists item, sq. split; [by left|done].
    + destruct (IH H) as (item' & sq' & Hin & Hrest).
      exists item', sq'. split; [by right|done].
Qed.

Lemma filter_png_webp (names : list string) :
  Forall (fun name => endswith name ".webp" = true) names ->
  filter (fun name => endswith (lower name) ".png" = true) names = [].
Proof.
  induction 1 as [|name names Hname _ IH]; [done|].
  rewrite filter_cons_False; [done|].
  by rewrite (endswith_webp_not_png _ Hname).
Qed.

Lemma filter_webp_all (names : list string) :
  Forall (fun name => endswith name ".webp" = true) names ->
  filter (fun name => endswith name ".webp" = true) names = names.
Proof.
  induction 1 as [|name names Hname _ IH]; [done|].
  rewrite filter_cons_True by done. by rewrite IH.
Qed.

Section BuiltArchive.
Variable P : Platform.
Variables (items : list (string * Image)) (es : Archive).
Hypothesis Hes : Forall2 (sticker_entry P) items es.
Hypothesis Hnames : Forall (fun item => endswith item.1 ".webp" = true) items.

Lemma entries_webp : Forall (fun name => endswith name ".webp" = true) es.*1.
Proof using Hes Hnames.
  rewrite (entries_names P items es Hes). by apply Forall_fmap.
Qed.

Lemma entries_not_head (name : string) :
  name ∈ ["title.txt"; "author.txt"; "tray.png"] -> name ∉ es.*1.
Proof using Hes Hnames.
  intros Hhead Hin.
  pose proof entries_webp as Hw. rewrite Forall_forall in Hw.
  specialize (Hw name Hin).
  repeat (apply elem_of_cons in Hhead as [->|Hhead]; [by vm_compute in Hw|]).
  by apply elem_of_nil in Hhead.
Qed.

Variables (self : StickerPack) (tray : Image).
Let zf : Archive := head_entries P self tray ++ es.

Lemma built_namelist :
  namelist zf = ["title.txt"; "author.txt"; "tray.png"] ++ items.*1.
Proof using Hes.
  unfold zf, namelist. rewrite fmap_app, (entries_names P items es Hes). done.
Qed.

Lemma built_find_head (name : string) :
  name ∈ ["title.txt"; "author.txt"; "tray.png"] ->
  zip_find zf name = zip_find (head_entries P self tray) name.
Proof using Hes Hnames.
  intros Hhead. unfold zf. rewrite zip_find_app.
  by rewrite (zip_find_None es name (entries_not_head name Hhead)).
Qed.

Lemma built_find_sticker (name : string) :
  name ∈ items.*1 ->
  exists item sq, item ∈ items /\ _squarify P item.2 512 = Ok sq /\
    zip_find zf name = Some (save_webp P sq).
Proof using Hes.
  intros Hin. rewrite <- (entries_names P items es Hes) in Hin.
  destruct (zip_find_Some es name Hin) as (b & Hb & Hbin).
  destruct (entries_elem P items es _ Hes Hbin)
    as (item & sq & Hitem & Hsq & [= _ ->]).
  exists item, sq. repeat split; try done.
  unfold zf. by rewrite zip_find_app, Hb.
Qed.

Lemma built_pngs :
  filter (fun name => endswith (lower name) ".png" = true) (namelist zf) =
  ["tray.png"].
Proof using Hes Hnames.
  rewrite built_namelist, filter_app.
  rewrite (filter_png_webp items.*1) by (by apply Forall_fmap).
  by vm_compute.
Qed.

Lemma built_webps :
  filter (fun name => endswith name ".webp" = true) (namelist zf) = items.*1.
Proof using Hes Hnames.
  rewrite built_namelist, filter_app.
  rewrite (filter_webp_all items.*1) by (by apply Forall_fmap).
  by vm_compute.
Qed.
End BuiltArchive.

(** ** The archive [save] writes passes the validator *)

Lemma head_find (P : Platform) (self : StickerPack) (tray : Image) :
  zip_find (head_entries P self tray) "title.txt"
    = Some (utf8_encode P (title self)) /\
  zip_find (head_entries P self tray) "author.txt"
    = Some (utf8_encode P (author self)) /\
  zip_find (head_entries P self tray) "tray.png" = Some (save_png P tray).
Proof. done. Qed.

Section BuiltValid.
Variable P : Platform.
Hypothesis laws : PlatformLaws P.
Variables (self : StickerPack) (tray : Image) (es : Archive).
Hypothesis Hes : Forall2 (sticker_entry P) (sticker_imgs self) es.
Hypothesis Hnames : webp_named self.
Hypothesis Htray : im_width tray = 96%Z /\ im_height tray = 96%Z.
Hypothesis Hsizes : Forall (fun item => positive_size item.2) (sticker_imgs self).

Let zf : Archive := head_entries P self tray ++ es.

Lemma check_tray_built :
  (Z.of_nat (length (save_png P tray)) < 50 * 1024)%Z ->
  check_tray P zf = Ok ().
Proof using laws Hes Hnames Htray.
  intros Hfit. unfold check_tray, file_size, zip_read, zf.
  rewrite (built_find_head P _ es Hes Hnames self tray "tray.png")
    by (repeat constructor).
  destruct (head_find P self tray) as (_ & _ & ->).
  destruct Htray as [Hw96 Hh96].
  destruct (open_png P laws tray) as (im' & Hopen & Hfmt & Hw & Hh);
    [unfold encodable; lia|].
  unfold mbind, result_bind, pil_open. rewrite Hopen.
  cbv beta iota zeta.
  rewrite Hfmt, Hw, Hh, Hw96, Hh96.
  rewrite !bool_decide_eq_true_2 by done.
  cbv beta iota delta [assert_].
  apply Z.ltb_lt in Hfit. by rewrite Hfit.
Qed.

Lemma check_webp_built (name : string) :
  Forall (fun item => forall sq,
            _squarify P item.2 512 = Ok sq ->
            (Z.of_nat (length (save_webp P sq)) < 100 * 1024)%Z)
         (sticker_imgs self) ->
  name ∈ (sticker_imgs self).*1 ->
  check_webp P zf name = Ok ().
Proof using laws Hes Hsizes.
  intros Hfit Hin.
  destruct (built_find_sticker P _ es Hes self tray name Hin)
    as (item & sq & Hitem & Hsq & Hfind).
  fold zf in Hfind.
  rewrite Forall_forall in Hfit. specialize (Hfit item Hitem sq Hsq).
  rewrite Forall_forall in Hsizes. destruct (Hsizes item Hitem) as [Hpw Hph].
  destruct (squarify_target P item.2 512) as (sq' & Hsq' & Hw512 & Hh512 & _);
    [lia..|].
  rewrite Hsq in Hsq'. injection Hsq' as <-.
  destruct (open_webp P laws sq) as (im' & Hopen & Hfmt & Hw & Hh);
    [unfold encodable; lia|].
  unfold check_webp, file_size, zip_read. rewrite Hfind.
  unfold mbind, result_bind, pil_open. rewrite Hopen.
  cbv beta iota zeta.
  rewrite Hfmt, Hw, Hh, Hw512, Hh512.
  rewrite !bool_decide_eq_true_2 by done.
  cbv beta iota delta [assert_].
  apply Z.ltb_lt in Hfit. by rewrite Hfit.
Qed.

Lemma built_validates (w : World) (filepath : string) :
  path_suffix filepath = ".wastickers" ->
  files w !! filepath = Some (ZipFile zf) ->
  3 <= length (sticker_imgs self) <= 30 ->
  (Z.of_nat (length (save_png P tray)) < 50 * 1024)%Z ->
  Forall (fun item => forall sq,
            _squarify P item.2 512 = Ok sq ->
            (Z.of_nat (length (save_webp P sq)) < 100 * 1024)%Z)
         (sticker_imgs self) ->
  check_valid_wastickers P w filepath = Ok ().
Proof using laws Hes Hnames Htray Hsizes.
  intros Hsuffix Hfile Hcount Hfit_tray Hfit.
  rewrite check_valid_as_rules. unfold spec_validate.
  rewrite first_violation_none; [done|].
  assert (Hnl := built_namelist P _ es Hes self tray). fold zf in Hnl.
  assert (Hpng := built_pngs P _ es Hes Hnames self tray). fold zf in Hpng.
  assert (Hwebp := built_webps P _ es Hes Hnames self tray). fold zf in Hwebp.
  repeat constructor.
  - unfold spec_rule_extension. by rewrite bool_decide_eq_true_2.
  - unfold spec_rule_archive, is_zipfile. by rewrite Hfile.
  - unfold spec_rule_tray_entry, open_zip. rewrite Hfile.
    unfold mbind, result_bind. cbv beta iota zeta. rewrite Hpng.
    rewrite bool_decide_eq_true_2; [done|].
    rewrite Hnl. apply list_elem_of_In. simpl. tauto.
  - unfold spec_rule_tray_image, open_zip. rewrite Hfile.
    by apply check_tray_built.
  - unfold spec_rule_stickers, open_zip. rewrite Hfile.
    unfold mbind, result_bind. cbv beta iota zeta. rewrite Hwebp.
    rewrite length_fmap.
    destruct (Nat.leb_spec 1 (length (sticker_imgs self))); [|lia].
    destruct (Nat.leb_spec (length (sticker_imgs self)) 30); [|lia].
    cbv beta iota delta [assert_ andb].
    apply for_each_ok. apply Forall_forall. intros name Hin.
    by apply check_webp_built.
  - unfold spec_rule_metadata, open_zip. rewrite Hfile.
    unfold mbind, result_bind. cbv beta iota zeta.
    rewrite !bool_decide_eq_true_2;
      [done|rewrite Hnl; apply list_elem_of_In; simpl; tauto..].
Qed.
End BuiltValid.

Lemma tray_source_ok (self : StickerPack) :
  check self = Ok () -> images_ok self ->
  exists tray0, tray_source self = Ok tray0 /\ positive_size tray0.
Proof.
  intros Hc [Htray Hst]. apply check_ok_iff in Hc as (_ & _ & Hn & _).
  unfold tray_source. destruct (tray_img self) as [im|].
  - exists im. split; [done|by apply Htray].
  - destruct (sticker_imgs self) as [|[k v] l]; simpl in *; [lia|].
    exists v. split; [done|]. by inversion Hst.
Qed.

(** What a successful [save] of a pack with positive images leaves behind. *)
Lemma save_succeeds (P : Platform) (self : StickerPack) (w : World)
    (fname folder : option string) (overwrite : bool) :
  check self = Ok () -> images_ok self ->
  (overwrite = true \/ files w !! save_path self w fname folder = None) ->
  exists tray0 tray es,
    tray_source self = Ok tray0 /\
    _squarify P tray0 96 = Ok tray /\
    im_width tray = 96%Z /\ im_height tray = 96%Z /\
    Forall2 (sticker_entry P) (sticker_imgs self) es /\
    save P self w fname folder overwrite =
      (Ok (), set_tray_img self tray,
       set_file w (save_path self w fname folder)
                (ZipFile (head_entries P self tray ++ es))).
Proof.
  intros Hc Himgs Hov.
  destruct (tray_source_ok self Hc Himgs) as (tray0 & Ht0 & Hpw & Hph).
  destruct (squarify_target P tray0 96) as (tray & Hsq & Hw & Hh & _); [lia..|].
  assert (Hst : Forall (fun item => exists sq, _squarify P item.2 512 = Ok sq)
                       (sticker_imgs self)).
  { destruct Himgs as [_ Hst]. eapply Forall_impl; [exact Hst|].
    intros item [Hiw Hih]. apply squarify_defined. lia. }
  destruct (save_ok_intro P self w fname folder overwrite tray0 tray
              Hc Ht0 Hov Hsq Hst) as (es & Hes & Hsave).
  exists tray0, tray, es. done.
Qed.


(** ** [from_wastickers] *)

Lemma dict_set_fresh {V} (d : list (string * V)) (k : string) (v : V) :
  k ∉ d.*1 -> dict_set d k v = d ++ [(k, v)].
Proof.
  induction d as [|[k' v'] d IH]; simpl; [done|].
  intros Hk. apply not_elem_of_cons in Hk as [Hne Hk].
  rewrite decide_False by done. by rewrite IH.
Qed.

Lemma load_stickers_spec (P : Platform) (zf : Archive) (Q : Image -> Prop)
    (names : list string) (acc : list (string * Image)) :
  NoDup names ->
  (forall n, n ∈ names -> n ∉ acc.*1) ->
  (forall n, n ∈ names ->
     exists b im, zip_find zf n = Some b /\ image_open P b = Some im /\ Q im) ->
  exists res,
    load_stickers P zf names acc = Ok (acc ++ res) /\
    res.*1 = names /\ Forall (fun item => Q item.2) res.
Proof.
  intros Hnd. revert acc.
  induction Hnd as [|n names Hn Hnd IH]; intros acc Hfresh Hfind; simpl.
  - exists []. by rewrite app_nil_r.
  - destruct (Hfind n) as (b & im & Hb & Him & HQ); [by left|].
    unfold zip_read, pil_open. rewrite Hb. simpl. rewrite Him. simpl.
    rewrite dict_set_fresh by (apply Hfresh; by left).
    destruct (IH (acc ++ [(n, im)])) as (res & Hres & Hkeys & HQs).
    + intros n' Hn'. rewrite fmap_app. intros Hin.
      apply elem_of_app in Hin as [Hin|Hin].
      * by apply (Hfresh n'); [right|].
      * apply list_elem_of_singleton in Hin. simpl in Hin. by subst.
    + intros n' Hn'. apply Hfind. by right.
    + exists ((n, im) :: res). rewrite Hres, <- app_assoc.
      split; [done|]. split; [|by constructor].
      rewrite fmap_cons. by f_equal.
Qed.


(** ** The small instance satisfies the laws *)

Lemma Z_of_byte_of_Z (z : Z) : (0 <= z < 256)%Z -> Z_of_byte (byte_of_Z z) = z.
Proof.
  intros Hz. unfold Z_of_byte, byte_of_Z.
  destruct (Byte.of_N (Z.to_N z)) as [b|] eqn:E; simpl.
  - apply Byte.to_of_N in E. rewrite E. lia.
  - apply Byte.of_N_None_iff in E. lia.
Qed.

Lemma simple_open_header (tag : Byte.byte) (fmt : string) (im : Image) :
  encodable im ->
  (tag = Byte.x50 /\ fmt = "PNG") \/ (tag = Byte.x57 /\ fmt = "WEBP") ->
  exists im',
    simple_open (simple_header tag im) = Some im' /\
    im_format im' = Some fmt /\
    im_width im' = im_width im /\ im_height im' = im_height im.
Proof.
  intros [Hw Hh] Htag. unfold simple_open, simple_header.
  assert (Hdec : forall z, (0 < z < 16384)%Z ->
            (256 * Z_of_byte (byte_of_Z (z / 256))
             + Z_of_byte (byte_of_Z (z mod 256)))%Z = z).
  { intros z Hz.
    rewrite !Z_of_byte_of_Z.
    - pose proof (Z.div_mod z 256 ltac:(lia)). lia.
    - apply Z.mod_pos_bound. lia.
    - split; [apply Z.div_pos; lia|apply Z.div_lt_upper_bound; lia]. }
  rewrite (Hdec _ Hw), (Hdec _ Hh).
  destruct Htag as [[-> ->]|[-> ->]]; simpl; eexists; done.
Qed.

Lemma simple_laws : PlatformLaws simple_platform.
Proof.
  constructor.
  - intros im. simpl. unfold simple_resize. by rewrite decide_True.
  - intros px. simpl. unfold simple_convert. by rewrite decide_True.
  - intros im Him.
    exact (simple_open_header Byte.x50 "PNG" im Him
             (or_introl (conj eq_refl eq_refl))).
  - intros im Him.
    exact (simple_open_header Byte.x57 "WEBP" im Him
             (or_intror (conj eq_refl eq_refl))).
  - intros s. simpl. by rewrite String.string_of_list_byte_of_string.
Qed.

(** * The statements on sample data *)

(** The sample data is evaluated by reduction, the empty map included. *)
#[local] Transparent gmap_empty.

Lemma triple_eta {A B C} (x : A * B * C) (a : A) :
  x.1.1 = a -> x = (a, x.1.2, x.2).
Proof. destruct x as [[a' b] c]. simpl. by intros ->. Qed.

Lemma check_first_failure_witness :
  check new_pack = Raise (InvalidStickerPack MissingTitle) /\
  check webp_pack = Ok ().
Proof.
  split.
  - apply (proj1 (check_first_failure new_pack)). reflexivity.
  - apply (proj2 (proj2 (proj2 (check_first_failure webp_pack)))).
    repeat split; simpl; (discriminate || lia).
Defined.

Lemma preprocess_partition_witness :
  1 <= length (image_paths_of sample_folder) /\
  match preprocess sample_folder "Cats" "Jo" None with
  | Ok packs => map length (map pi_image_paths packs) = [16; 15]
  | Raise _ => False
  end.
Proof.
  assert (Hn : 1 <= length (image_paths_of sample_folder))
    by (vm_compute; lia).
  split; [exact Hn|].
  pose proof (preprocess_partition sample_folder "Cats" "Jo" None Hn) as Hp.
  destruct (preprocess sample_folder "Cats" "Jo" None) as [packs|e].
  - destruct Hp as (_ & _ & _ & _ & _ & H31 & _). apply H31. reflexivity.
  - apply Hp. reflexivity.
Defined.


Lemma squarify_idempotent_witness :
  (exists sq, _squarify simple_platform (blank_image 96 96) 96 = Ok sq /\
     _squarify simple_platform sq 96 = Ok sq) /\
  (let out := save simple_platform webp_pack empty_world None None false in
   save simple_platform out.1.2 out.2 None None true = (Ok (), out.1.2, out.2)).
Proof.
  split.
  - destruct (proj1 (squarify_idempotent simple_platform simple_laws)
                (blank_image 96 96) 96%Z)
      as (sq & Hsq & _ & _ & Hfix & _); [lia|reflexivity..|].
    exists sq. split; [exact Hsq|exact Hfix].
  - intros out.
    apply (proj2 (squarify_idempotent simple_platform simple_laws)
             webp_pack out.1.2 empty_world out.2 None None false
             (blank_image 512 512)).
    + reflexivity.
    + unfold valid_size. simpl. lia.
    + apply triple_eta. lazy. reflexivity.
Defined.

Lemma save_no_overwrite_witness :
  let out := save simple_platform webp_pack busy_world None None false in
  out.1.1 = Raise (FileExistsError "/home/jo/Cats.wastickers") /\
  out.2 = busy_world /\
  files out.2 !! "/home/jo/Cats.wastickers" = Some (PlainFile []).
Proof.
  apply (save_no_overwrite simple_platform webp_pack busy_world None None
           (PlainFile [])).
  - reflexivity.
  - lazy. reflexivity.
Defined.

Lemma validate_first_violation_witness :
  check_valid_wastickers simple_platform hand_world "/home/jo/anon.wastickers"
  = Raise (InvalidWastickersFile NoAuthorFile).
Proof.
  apply (proj2 (proj2 (proj2 (validate_first_violation simple_platform
           hand_world "/home/jo/anon.wastickers"))) no_author_archive).
  - lazy. reflexivity.
  - repeat constructor; lazy; reflexivity.
  - apply (bool_decide_unpack _). lazy. exact I.
Defined.

Lemma webp_count_range_witness :
  check_valid_wastickers simple_platform hand_world "/home/jo/one.wastickers"
  = Ok ().
Proof.
  apply (proj1 (webp_count_range simple_platform hand_world
                  "/home/jo/one.wastickers" one_sticker_archive
                  ltac:(lazy; reflexivity)
                  ltac:(repeat constructor; lazy; reflexivity)
                  ltac:(repeat constructor; lazy; reflexivity)
                  ltac:(apply (bool_decide_unpack _); lazy; exact I)
                  ltac:(apply (bool_decide_unpack _); lazy; exact I))).
  lazy. lia.
Defined.

Lemma webp_pack_ready :
  check webp_pack = Ok () /\ webp_named webp_pack /\ images_ok webp_pack /\
  encodings_fit simple_platform webp_pack /\
  NoDup (sticker_imgs webp_pack).*1 /\
  path_name (save_file_name webp_pack None) <> EmptyString /\
  files empty_world !! save_path webp_pack empty_world None None = None.
Proof.
  split; [reflexivity|]. split; [|split; [|split; [|split; [|split]]]].
  - repeat constructor.
  - split; [intros im [=]|]. repeat constructor; simpl; lia.
  - split.
    + intros tray0 tray _ _. simpl. lia.
    + repeat constructor; intros sq _; simpl; lia.
  - apply (bool_decide_unpack _). lazy. exact I.
  - lazy. discriminate.
  - lazy. reflexivity.
Defined.





(** * Further properties *)

(** ** [_to_snake_case] *)

Lemma prefix_single (c x : ascii) (r : list ascii) :
  [c] `prefix_of` x :: r <-> x = c.
Proof.
  split.
  - intros [k Hk]. simpl in Hk. by injection Hk.
  - intros ->. by exists r.
Qed.

Lemma str_replace_char (t : list ascii) (c d : ascii) :
  str_replace t [c] [d] = map (fun x => if decide (x = c) then d else x) t.
Proof.
  unfold str_replace. induction t as [|x t IH]; [done|].
  cbn [replace_go map length Nat.sub app]. rewrite IH.
  destruct (decide (x = c)) as [->|Hne].
  - rewrite bool_decide_eq_true_2 by (by apply prefix_single). done.
  - rewrite bool_decide_eq_false_2; [done|].
    intros H. by apply prefix_single in H.
Qed.

Lemma prefix_double (c : ascii) (r : list ascii) :
  bool_decide (["_"; "_"]%char `prefix_of` c :: r) =
  bool_decide (c = "_"%char) && starts_underscore r.
Proof.
  unfold starts_underscore.
  destruct (decide (c = "_"%char)) as [->|Hc].
  - rewrite (bool_decide_eq_true_2 (_ = _)) by done. simpl.
    destruct r as [|c' r].
    + rewrite !bool_decide_eq_false_2; [done|by intros [=]|].
      intros [k Hk]. simpl in Hk. congruence.
    + destruct (decide (c' = "_"%char)) as [->|Hc'].
      * rewrite !bool_decide_eq_true_2; [done..|]. by exists r.
      * rewrite !bool_decide_eq_false_2; [done|simpl; congruence|].
        intros [k Hk]. simpl in Hk. congruence.
  - rewrite (bool_decide_eq_false_2 (c = _)) by done. simpl.
    apply bool_decide_eq_false_2. intros [k Hk]. simpl in Hk. congruence.
Qed.

Lemma contains_double (t : list ascii) :
  contains_chars t ["_"; "_"]%char = has_double_underscore t.
Proof.
  induction t as [|c r IH]; [by vm_compute|].
  cbn [contains_chars has_double_underscore]. by rewrite prefix_double, IH.
Qed.

Lemma halve_cons (c : ascii) (r : list ascii) :
  halve (c :: r) =
  if bool_decide (c = "_"%char) && starts_underscore r
  then "_"%char :: halve (tail r)
  else c :: halve r.
Proof.
  unfold halve, str_replace. cbn [replace_go]. rewrite prefix_double.
  destruct (bool_decide (c = "_"%char) && starts_underscore r) eqn:E; [|done].
  destruct r as [|c' r]; [done|]. done.
Qed.

Lemma halve_facts (n : nat) (t : list ascii) :
  length t <= n ->
  head (halve t) = head t /\
  squeeze (halve t) = squeeze t /\
  length (halve t) <= length t /\
  (has_double_underscore t = true -> length (halve t) < length t).
Proof.
  revert t. induction n as [|n IH]; intros t Hlen.
  - destruct t; [done|simpl in Hlen; lia].
  - destruct t as [|c r]; [done|]. simpl in Hlen.
    rewrite halve_cons. cbn [has_double_underscore squeeze].
    destruct (bool_decide (c = "_"%char) && starts_underscore r) eqn:E.
    + apply andb_true_iff in E as [Hc Hr].
      apply bool_decide_eq_true in Hc as ->.
      unfold starts_underscore in Hr. apply bool_decide_eq_true in Hr.
      destruct r as [|c' r']; [done|]. injection Hr as ->.
      simpl in Hlen. cbn [tail].
      destruct (IH r' ltac:(lia)) as (Hh & Hs & Hl & _).
      split; [done|]. split; [|simpl; split; intros; lia].
      cbn [squeeze]. unfold starts_underscore. rewrite Hh, Hs.
      rewrite (bool_decide_eq_true_2 ("_"%char = "_"%char)) by done. done.
    + destruct (IH r ltac:(lia)) as (Hh & Hs & Hl & Hlt).
      split; [done|]. split; [|simpl; split; [lia|]].
      * cbn [squeeze]. unfold starts_underscore in *. rewrite Hh, Hs.
        by rewrite E.
      * intros Hd. simpl in Hd. specialize (Hlt Hd). lia.
Qed.

Lemma squeeze_head (t : list ascii) : head (squeeze t) = head t.
Proof.
  induction t as [|c r IH]; [done|]. cbn [squeeze].
  destruct (bool_decide (c = "_"%char) && starts_underscore r) eqn:E; [|done].
  apply andb_true_iff in E as [Hc Hr].
  apply bool_decide_eq_true in Hc as ->.
  apply bool_decide_eq_true in Hr. by rewrite IH.
Qed.

Lemma squeeze_no_double (t : list ascii) :
  has_double_underscore (squeeze t) = false.
Proof.
  induction t as [|c r IH]; [done|]. cbn [squeeze].
  destruct (bool_decide (c = "_"%char) && starts_underscore r) eqn:E; [done|].
  cbn [has_double_underscore]. rewrite IH.
  unfold starts_underscore in *. rewrite squeeze_head, E. done.
Qed.

Lemma squeeze_id (t : list ascii) :
  has_double_underscore t = false -> squeeze t = t.
Proof.
  induction t as [|c r IH]; [done|]. cbn [has_double_underscore squeeze].
  intros H. apply orb_false_iff in H as [-> H]. by rewrite IH.
Qed.

(** The loop ends within [length text] turns and leaves the text with its
    runs of underscores cut down to one. *)
Lemma collapse_underscores_squeeze (fuel : nat) (t : list ascii) :
  length t <= fuel -> collapse_underscores fuel t = squeeze t.
Proof.
  revert t. induction fuel as [|fuel IH]; intros t Hlen.
  - destruct t; [done|simpl in Hlen; lia].
  - cbn [collapse_underscores]. rewrite contains_double.
    destruct (has_double_underscore t) eqn:E.
    + fold (halve t).
      destruct (halve_facts (length t) t (le_n _)) as (_ & Hs & _ & Hlt).
      rewrite IH by (specialize (Hlt E); lia). done.
    + by rewrite squeeze_id.
Qed.

Lemma collapse_underscores_done (t : list ascii) :
  contains_chars (collapse_underscores (length t) t) ["_"; "_"]%char = false.
Proof.
  rewrite collapse_underscores_squeeze by done.
  rewrite contains_double. apply squeeze_no_double.
Qed.

Lemma snake_case_body (text : string) :
  _to_snake_case text =
  match last (snake_body text) with
  | None => Raise IndexError
  | Some c =>
      if decide (c = "_"%char)
      then Ok (of_chars (take (length (snake_body text) - 1) (snake_body text)))
      else Ok (of_chars (snake_body text))
  end.
Proof.
  unfold _to_snake_case, snake_body, lower.
  rewrite !chars_of_chars, !str_replace_char, !map_map.
  rewrite collapse_underscores_squeeze by done. done.
Qed.

Lemma snake_char_out (c : ascii) :
  _is_snake_char c = true -> is_snake_out (snake_normalise c) = true.
Proof.
  destruct c as [[] [] [] [] [] [] [] []]; vm_compute; (reflexivity || discriminate).
Qed.

Lemma snake_out_fixed (c : ascii) :
  is_snake_out c = true -> _is_snake_char c = true /\ snake_normalise c = c.
Proof.
  destruct c as [[] [] [] [] [] [] [] []]; vm_compute;
    (discriminate || (split; reflexivity)).
Qed.

Lemma squeeze_Forall (Q : ascii -> Prop) (t : list ascii) :
  Forall Q t -> Forall Q (squeeze t).
Proof.
  induction 1 as [|c r Hc _ IH]; [constructor|]. cbn [squeeze].
  destruct (_ && _); [done|by constructor].
Qed.

Lemma snake_body_out (text : string) :
  Forall (fun c => is_snake_out c = true) (snake_body text).
Proof.
  unfold snake_body. apply squeeze_Forall, Forall_map.
  induction (chars text) as [|c r IH]; [constructor|].
  destruct (_is_snake_char c) eqn:E.
  - rewrite filter_cons_True by done. constructor; [by apply snake_char_out|done].
  - rewrite filter_cons_False; [done|]. by rewrite E.
Qed.

Lemma double_underscore_snoc (l : list ascii) (c : ascii) :
  has_double_underscore (l ++ [c]) =
  has_double_underscore l ||
  (bool_decide (last l = Some "_"%char) && bool_decide (c = "_"%char)).
Proof.
  induction l as [|x l IH].
  - simpl. unfold starts_underscore. simpl.
    repeat case_bool_decide; simplify_eq; done.
  - cbn [app has_double_underscore]. rewrite IH.
    destruct l as [|y l].
    + simpl. unfold starts_underscore. simpl.
      repeat case_bool_decide; simplify_eq; done.
    + change (last (x :: y :: l)) with (last (y :: l)).
      change (starts_underscore ((y :: l) ++ [c]))
        with (starts_underscore (y :: l)).
      by rewrite orb_assoc.
Qed.

Lemma squeeze_nil (t : list ascii) : squeeze t = [] <-> t = [].
Proof.
  split; [|by intros ->]. intros H.
  pose proof (squeeze_head t) as Hh. rewrite H in Hh. by destruct t.
Qed.

Lemma filter_nil_Forall {A} (f : A -> bool) (l : list A) :
  filter (fun x => f x = true) l = [] <-> Forall (fun x => f x = false) l.
Proof.
  induction l as [|x l IH]; [by split; [constructor|]|].
  destruct (f x) eqn:E.
  - rewrite filter_cons_True by done. split; [done|].
    intros H. inversion H; congruence.
  - rewrite filter_cons_False by (by rewrite E). rewrite IH. split.
    + by constructor.
    + by inversion 1.
Qed.

(** X1. [_to_snake_case] raises [IndexError] (from [text[-1]] on the empty
    string) exactly when no character of the ASCII text is a digit, a letter
    or one of ["_ .-\n"]; on every other text it returns. *)
Theorem snake_case_raises (text : string) :
  ascii_text text ->
  (_to_snake_case text = Raise IndexError <->
   Forall (fun c => _is_snake_char c = false) (chars text)) /\
  (~ Forall (fun c => _is_snake_char c = false) (chars text) ->
   exists s, _to_snake_case text = Ok s).
Proof.
  intros _. rewrite snake_case_body.
  assert (Hnil : snake_body text = [] <->
                 Forall (fun c => _is_snake_char c = false) (chars text)).
  { unfold snake_body. rewrite squeeze_nil, <- filter_nil_Forall. split.
    - apply fmap_nil_inv.
    - by intros ->. }
  destruct (snake_body text) as [|c b] eqn:E using rev_ind.
  - simpl. split; [by rewrite <- Hnil|]. intros H. destruct H. by apply Hnil.
  - rewrite last_snoc. split.
    + split.
      * by destruct (decide (c = "_"%char)).
      * intros H. apply Hnil in H. by destruct b.
    + intros _. destruct (decide (c = "_"%char)); by eexists.
Qed.

(** The shape of a result, on every text. *)
Lemma snake_result_shape (text s : string) :
  _to_snake_case text = Ok s ->
  Forall (fun c => is_snake_out c = true) (chars s) /\
  has_double_underscore (chars s) = false /\
  last (chars s) <> Some "_"%char.
Proof.
  rewrite snake_case_body.
  pose proof (snake_body_out text) as Hout.
  assert (Hnd : has_double_underscore (snake_body text) = false)
    by apply squeeze_no_double.
  destruct (snake_body text) as [|c b _] using rev_ind; [done|].
  rewrite last_snoc.
  rewrite double_underscore_snoc in Hnd.
  apply orb_false_iff in Hnd as [Hnd Hlast].
  apply Forall_app in Hout as [Hb Hc].
  destruct (decide (c = "_"%char)) as [->|Hne]; intros [= <-];
    rewrite chars_of_chars.
  - rewrite length_app. simpl.
    replace (length b + 1 - 1) with (length b) by lia.
    rewrite take_app_length. repeat split; try done.
    rewrite (bool_decide_eq_true_2 ("_"%char = "_"%char)) in Hlast by done.
    rewrite andb_true_r in Hlast. by apply bool_decide_eq_false in Hlast.
  - repeat split.
    + by apply Forall_app.
    + rewrite double_underscore_snoc, Hnd.
      rewrite (bool_decide_eq_false_2 (c = _)) by done.
      by rewrite andb_false_r.
    + rewrite last_snoc. congruence.
Qed.

(** X2. A result of [_to_snake_case] on an ASCII text is made of lower-case
    letters, digits and underscores only, has no two underscores in a row and
    does not end in an underscore. *)
Theorem snake_case_shape (text s : string) :
  ascii_text text ->
  _to_snake_case text = Ok s ->
  Forall (fun c => is_snake_out c = true) (chars s) /\
  has_double_underscore (chars s) = false /\
  last (chars s) <> Some "_"%char.
Proof.
  intros _ Hs.
  destruct (snake_result_shape text s Hs) as (Hout & Hnd & Hlast).
  split; [exact Hout|]. split; [exact Hnd|exact Hlast].
Qed.

Lemma snake_out_list_fixed (l : list ascii) :
  Forall (fun c => is_snake_out c = true) l ->
  map snake_normalise (filter (fun c => _is_snake_char c = true) l) = l.
Proof.
  induction 1 as [|c r Hc _ IH]; [done|].
  destruct (snake_out_fixed c Hc) as [Hk Hn].
  rewrite filter_cons_True by done. simpl. by rewrite IH, Hn.
Qed.

Lemma snake_body_fixed (s : string) :
  Forall (fun c => is_snake_out c = true) (chars s) ->
  has_double_underscore (chars s) = false ->
  snake_body s = chars s.
Proof.
  intros Hout Hnd. unfold snake_body.
  rewrite snake_out_list_fixed by done. by apply squeeze_id.
Qed.

(** X3. [_to_snake_case] is idempotent where it can be: applied to one of its
    own results it returns that result again, except that the empty result
    (the result for ["_"], for one) makes it raise [IndexError]. *)
Theorem snake_case_idempotent (text s : string) :
  ascii_text text ->
  _to_snake_case text = Ok s ->
  _to_snake_case s = if decide (s = EmptyString) then Raise IndexError else Ok s.
Proof.
  intros Hascii Hs.
  destruct (snake_result_shape text s Hs) as (Hout & Hnd & Hlast).
  rewrite snake_case_body, (snake_body_fixed s Hout Hnd).
  destruct (chars s) as [|c b _] eqn:E using rev_ind.
  - assert (s = EmptyString) as -> by (apply chars_inj; by rewrite E). done.
  - rewrite last_snoc in *.
    rewrite decide_False by congruence.
    rewrite decide_False.
    + by rewrite <- E, of_chars_chars.
    + intros ->. by destruct b.
Qed.

(** The assertions of [_test_wastickers.py] on ASCII texts, as a check of the
    embedding. *)
Example snake_case_tests :
  _to_snake_case "Normal sentence." = Ok "normal_sentence" /\
  _to_snake_case (of_chars (chars "Newline" ++ ["010"%char] ++ chars "sentence!"))
    = Ok "newline_sentence" /\
  _to_snake_case "PascalCase" = Ok "pascalcase" /\
  _to_snake_case "camelCase" = Ok "camelcase" /\
  _to_snake_case "snake_case" = Ok "snake_case" /\
  _to_snake_case "Dash-case" = Ok "dash_case" /\
  _to_snake_case "multi  __ whitespace" = Ok "multi_whitespace".
Proof. repeat split; by vm_compute. Qed.

Lemma ascii_text_decide (text : string) :
  forallb (fun c => Ascii.nat_of_ascii c <? 128) (chars text) = true ->
  ascii_text text.
Proof.
  intros H. apply Forall_forall. intros c Hc.
  rewrite forallb_forall in H. apply Nat.ltb_lt, H. by apply list_elem_of_In.
Qed.

Lemma snake_case_raises_witness :
  _to_snake_case "(!?)" = Raise IndexError /\
  exists s, _to_snake_case "Gudetama 2!" = Ok s.
Proof.
  split.
  - apply (proj1 (snake_case_raises "(!?)" (ascii_text_decide "(!?)" eq_refl))).
    repeat constructor.
  - apply (proj2 (snake_case_raises "Gudetama 2!"
                    (ascii_text_decide "Gudetama 2!" eq_refl))).
    intros H. by inversion H.
Defined.

Lemma snake_case_shape_witness :
  Forall (fun c => is_snake_out c = true) (chars "gudetama_2") /\
  has_double_underscore (chars "gudetama_2") = false /\
  last (chars "gudetama_2") <> Some "_"%char.
Proof.
  apply (snake_case_shape "Gudetama - 2." "gudetama_2").
  - by apply ascii_text_decide.
  - reflexivity.
Defined.

Lemma snake_case_idempotent_witness :
  _to_snake_case "gudetama_2" = Ok "gudetama_2" /\
  _to_snake_case EmptyString = Raise IndexError.
Proof.
  split.
  - apply (snake_case_idempotent "Gudetama - 2." "gudetama_2").
    + by apply ascii_text_decide.
    + reflexivity.
  - apply (snake_case_idempotent "_" EmptyString).
    + by apply ascii_text_decide.
    + reflexivity.
Defined.

(** ** [StickerPack.save]: failures and the rest of the file system *)

Lemma squarify_raises (P : Platform) (im : Image) (pixels : Z) (e : exn) :
  _squarify P im pixels = Raise e -> e = ZeroDivisionError /\ zero_size im.
Proof.
  unfold _squarify, zero_size.
  destruct (Z.eqb_spec (Z.max (im_width im) (im_height im)) 0); [|done].
  by intros [= <-].
Qed.

Lemma write_stickers_outcome (P : Platform) (items : list (string * Image))
    (zf : Archive) :
  exists es,
    (write_stickers P items zf).2 = zf ++ es /\
    es.*1 = take (length es) items.*1 /\
    match (write_stickers P items zf).1 with
    | Ok _ => length es = length items
    | Raise e =>
        e = ZeroDivisionError /\
        exists item, items !! length es = Some item /\ zero_size item.2
    end.
Proof.
  revert zf. induction items as [|[name img] items IH]; intros zf; simpl.
  - exists []. by rewrite app_nil_r.
  - destruct (_squarify P img 512) as [sq|e] eqn:Hsq.
    + destruct (IH (zf ++ [(name, save_webp P sq)])) as (es & Hzf & Hnames & Hr).
      exists ((name, save_webp P sq) :: es). rewrite Hzf, <- app_assoc.
      split; [done|]. split; [simpl; by f_equal|].
      destruct (write_stickers P items _).1; simpl; [lia|done].
    + exists []. rewrite app_nil_r. split; [done|]. split; [done|].
      apply squarify_raises in Hsq as [-> Hz]. split; [done|].
      by exists (name, img).
Qed.

Lemma check_tray_source (self : StickerPack) :
  check self = Ok () -> exists tray0, tray_source self = Ok tray0.
Proof.
  intros Hc. apply check_ok_iff in Hc as (_ & _ & Hn & _). unfold tray_source.
  destruct (tray_img self); [by eexists|].
  destruct (sticker_imgs self) as [|[k v] l]; simpl in *; [lia|by eexists].
Qed.

Lemma check_raises (self : StickerPack) (e : exn) :
  check self = Raise e -> exists pe, e = InvalidStickerPack pe.
Proof.
  unfold check. repeat case_decide; try destruct (negb _);
    intros [= <-]; by eexists.
Qed.


(** X5. [save] does not clean up after a failure: when it raises
    [ZeroDivisionError] the destination holds an archive with the entries
    written until then, [title.txt] and [author.txt] first and fewer than a
    complete pack has; what was at the destination before is gone. *)
Theorem save_failure_partial (P : Platform) (self : StickerPack) (w : World)
    (fname folder : option string) (overwrite : bool) :
  let out := save P self w fname folder overwrite in
  out.1.1 = Raise ZeroDivisionError ->
  exists zf,
    files out.2 !! save_path self w fname folder = Some (ZipFile zf) /\
    namelist zf `prefix_of` full_names self /\
    2 <= length zf < length (full_names self) /\
    take 2 zf = [("title.txt", utf8_encode P (title self));
                 ("author.txt", utf8_encode P (author self))].
Proof.
  unfold save, full_names. destruct (check self) as [[]|e] eqn:Hc.
  - destruct (check_tray_source self Hc) as [tray0 Ht].
    unfold tray_source in Ht. rewrite Ht.
    change (save_path (set_tray_img self tray0) w fname folder)
      with (save_path self w fname folder).
    destruct (negb overwrite && bool_decide _); [done|].
    destruct (_squarify P tray0 96) as [tray|e] eqn:Hsq; simpl.
    + destruct (write_stickers_outcome P (sticker_imgs self)
                  ([("title.txt", utf8_encode P (title self));
                    ("author.txt", utf8_encode P (author self))] ++
                   [("tray.png", save_png P tray)]))
        as (es & Hzf & Hnames & Hr).
      destruct (write_stickers P _ _) as [[[]|e] zf]; simpl in *; [done|].
      intros _. destruct Hr as (_ & item & Hitem & _).
      apply lookup_lt_Some in Hitem.
      exists zf. rewrite lookup_insert_eq. subst zf. split; [done|].
      unfold namelist. repeat split.
      * rewrite !fmap_cons. cbn [fst]. rewrite Hnames.
        do 3 apply prefix_cons. apply prefix_take.
      * simpl. lia.
      * simpl. rewrite length_fmap. lia.
    + intros _. eexists. rewrite lookup_insert_eq. split; [done|].
      repeat split; simpl.
      * by do 2 apply prefix_cons; apply prefix_nil.
      * lia.
      * rewrite length_fmap. lia.
  - simpl. intros [= ->]. by apply check_raises in Hc as [pe [=]].
Qed.

(** X6. Whatever [save] does, it changes nothing of the file
    system but the file at its destination: every other path holds what it
    held, and the working directory is the same. *)
Theorem save_other_files (P : Platform) (self : StickerPack) (w : World)
    (fname folder : option string) (overwrite : bool) (path : string) :
  path <> save_path self w fname folder ->
  let w' := (save P self w fname folder overwrite).2 in
  files w' !! path = files w !! path /\ cwd w' = cwd w.
Proof.
  intros Hp. unfold save. destruct (check self); [|done].
  destruct (match tray_img self with None => _ | Some im => _ end) as [tray0|];
    [|done].
  change (save_path (set_tray_img self tray0) w fname folder)
    with (save_path self w fname folder).
  destruct (negb overwrite && _); [done|].
  destruct (_squarify P _ 96); simpl.
  - destruct (write_stickers _ _ _). simpl. by rewrite lookup_insert_ne.
  - by rewrite lookup_insert_ne.
Qed.

(** ** [check_valid_wastickers]: the exceptions it lets through *)

Lemma assert_exn (cond : bool) (msg : Reason) (e : exn) :
  assert_ cond msg = Raise e -> e = AssertionError msg.
Proof. destruct cond; simpl; [done|]. by intros [= <-]. Qed.

Lemma check_tray_exn (P : Platform) (zf : Archive) (e : exn) :
  "tray.png" ∈ namelist zf -> check_tray P zf = Raise e -> image_check_exn e.
Proof.
  intros Hin. destruct (zip_find_Some zf _ Hin) as (b & Hb & _).
  unfold check_tray, file_size, zip_read, pil_open, image_check_exn.
  rewrite Hb. simpl.
  destruct (image_open P b) as [img|]; simpl; [|intros [= <-]; by right].
  destruct (bool_decide (im_format img = _)); simpl;
    [|intros [= <-]; left; by eexists].
  destruct (bool_decide ((_, _) = _)); simpl;
    [|intros [= <-]; left; by eexists].
  destruct (_ <? _)%Z; simpl; [done|intros [= <-]; left; by eexists].
Qed.

Lemma check_webp_exn (P : Platform) (zf : Archive) (name : string) (e : exn) :
  name ∈ namelist zf -> check_webp P zf name = Raise e -> image_check_exn e.
Proof.
  intros Hin. destruct (zip_find_Some zf _ Hin) as (b & Hb & _).
  unfold check_webp, file_size, zip_read, pil_open, image_check_exn.
  rewrite Hb. simpl.
  destruct (image_open P b) as [img|]; simpl; [|intros [= <-]; by right].
  destruct (bool_decide (im_format img = _)); simpl;
    [|intros [= <-]; left; by eexists].
  destruct (bool_decide ((_, _) = _)); simpl;
    [|intros [= <-]; left; by eexists].
  destruct (_ <? _)%Z; simpl; [done|intros [= <-]; left; by eexists].
Qed.

Lemma for_each_exn {A} (body : A -> result unit) (l : list A) (e : exn) :
  for_each body l = Raise e -> exists x, x ∈ l /\ body x = Raise e.
Proof.
  induction l as [|x l IH]; simpl; [done|].
  destruct (body x) as [[]|e'] eqn:Hx; simpl.
  - intros H. destruct (IH H) as (y & Hy & He). exists y. split; [by right|done].
  - intros [= <-]. exists x. split; [by left|done].
Qed.


(** ** [preprocess]: errors, tray images and titles *)

Lemma mapM_result_Forall2 {A B} (f : A -> result B) (l : list A) (r : list B) :
  mapM f l = Ok r -> Forall2 (fun x y => f x = Ok y) l r.
Proof.
  revert r. induction l as [|x l IH]; intros r; simpl.
  - intros [= <-]. constructor.
  - destruct (f x) as [y|] eqn:Hx; simpl; [|discriminate].
    destruct (mapM f l) as [r'|]; simpl; [|discriminate].
    intros [= <-]. constructor; [done|by apply IH].
Qed.

Lemma mapM_result_raise {A B} (f : A -> result B) (l : list A) (e : exn) :
  mapM f l = Raise e -> exists x, x ∈ l /\ f x = Raise e.
Proof.
  induction l as [|x l IH]; simpl; [done|].
  destruct (f x) as [y|e'] eqn:Hx; simpl.
  - destruct (mapM f l) as [r'|e'] eqn:Hl; simpl; [done|].
    intros [= <-]. destruct (IH eq_refl) as (z & Hz & He).
    exists z. split; [by right|done].
  - intros [= <-]. exists x. split; [by left|done].
Qed.

Lemma zip3_first {A B C} (la : list A) (lb : list B) (lc : list C) :
  length la = length lb -> length lc = length lb ->
  map (fun x => fst (fst x)) (zip3 la lb lc) = la.
Proof.
  revert lb lc. induction la as [|a la IH]; intros [|b lb] [|c lc]; simpl;
    try done.
  intros [= Ha] [= Hc]. f_equal. by apply IH.
Qed.

Lemma zip3_last {A B C} (la : list A) (lb : list B) (lc : list C) :
  length la = length lb -> length lc = length lb ->
  map snd (zip3 la lb lc) = lc.
Proof.
  revert la lb. induction lc as [|c lc IH]; intros [|a la] [|b lb]; simpl;
    try done.
  intros [= Ha] [= Hc]. f_equal. by apply IH.
Qed.

(** [preprocess] on a folder with an image, up to the choice of the trays. *)
Lemma preprocess_unfold (folder : list string) (title author : string)
    (tray_names : option (list string)) :
  let n := length (image_paths_of folder) in
  let chunk_count := (n + 29) / 30 in
  1 <= n ->
  length (image_chunks folder) = chunk_count /\
  1 <= chunk_count /\
  Forall (fun c => 1 <= length c) (image_chunks folder) /\
  preprocess folder title author tray_names =
    (tray_paths ←
       match tray_names with
       | None => mapM first_item (image_chunks folder)
       | Some names =>
           if length names =? chunk_count
           then mapM (fun x => first_item (sorted (glob_infix folder x))) names
           else Raise ValueError
       end;
     Ok (map (pack_info author)
             (zip3 (chunk_titles title chunk_count) (image_chunks folder)
                   tray_paths))).
Proof.
  intros n chunk_count Hn.
  destruct (preprocess_chunks (image_paths_of folder) Hn)
    as (Hk & Hs & Hk1 & Hs1 & Hlen).
  fold n chunk_count in Hk, Hs, Hk1, Hs1, Hlen.
  split; [|split; [|split]].
  - unfold image_chunks. by rewrite length_map.
  - done.
  - unfold image_chunks. apply Forall_map.
    eapply Forall_impl; [apply range_from_bound|].
    intros i Hi. cbv beta zeta in Hi |- *. rewrite slice_length.
    fold n chunk_count in Hi |- *. lia.
  - unfold preprocess. fold n. rewrite Hk. simpl. rewrite Hs. simpl.
    unfold _chunks. fold n chunk_count.
    destruct (Nat.eqb_spec ((n + chunk_count - 1) / chunk_count) 0) as [?|_];
      [lia|].
    done.
Qed.

(** X8. On a folder without images ([*.png] other than [tray.png],
    [*.webp]) [preprocess] raises [ZeroDivisionError], whatever tray names
    it is given: the number of chunks is 0 and the chunk size divides by
    it. *)
Theorem preprocess_no_images (folder : list string) (title author : string)
    (tray_names : option (list string)) :
  image_paths_of folder = [] ->
  preprocess folder title author tray_names = Raise ZeroDivisionError.
Proof. intros H. unfold preprocess. by rewrite H. Qed.

Lemma sorted_head (l : list string) (t : string) (rest : list string) :
  sorted l = t :: rest -> t ∈ l /\ forall y, y ∈ l -> String.le t y.
Proof.
  intros Hs. unfold sorted in Hs.
  pose proof (merge_sort_Permutation String.le l) as Hp.
  pose proof (StronglySorted_merge_sort String.le l) as Hss.
  rewrite Hs in Hp, Hss. split.
  - rewrite <- Hp. by left.
  - intros y Hy. rewrite <- Hp in Hy. apply elem_of_cons in Hy as [->|Hy].
    + done.
    + apply StronglySorted_inv in Hss as [_ Hall].
      rewrite Forall_forall in Hall. by apply Hall.
Qed.

Lemma sorted_nil (l : list string) : sorted l = [] -> l = [].
Proof.
  intros Hs. pose proof (merge_sort_Permutation String.le l) as Hp.
  unfold sorted in Hs. rewrite Hs in Hp. by apply Permutation_nil_l in Hp.
Qed.


(** X10. Without tray names, on a folder with an image,
    [preprocess] returns; every pack has the given author and its first
    image as tray; a single pack has the title as given and [k > 1] packs
    are titled ["title 1"] to ["title k"]. *)
Theorem preprocess_metadata (folder : list string) (title author : string) :
  let n := length (image_paths_of folder) in
  let chunk_count := (n + 29) / 30 in
  1 <= n ->
  exists packs,
    preprocess folder title author None = Ok packs /\
    Forall (fun pk => pi_author pk = author /\
                      head (pi_image_paths pk) = Some (pi_tray_path pk)) packs /\
    map pi_title packs =
      (if chunk_count =? 1 then [title]
       else map (fun i => title +:+ " " +:+ pretty (i + 1)) (seq 0 chunk_count)) /\
    (n <= 30 -> map pi_title packs = [title]).
Proof.
  intros n chunk_count Hn.
  destruct (preprocess_unfold folder title author None Hn)
    as (Hlen & Hk1 & Hne & ->).
  fold n in Hlen, Hk1 |- *. fold chunk_count in Hlen, Hk1 |- *.
  destruct (mapM_first_item (image_chunks folder) Hne) as [trays Hm].
  rewrite Hm. unfold mbind, result_bind; cbv beta iota.
  pose proof (mapM_result_length _ _ _ Hm) as Htl.
  apply mapM_result_Forall2 in Hm.
  eexists. split; [done|].
  assert (Htitles : map pi_title
            (map (pack_info author)
               (zip3 (chunk_titles title chunk_count) (image_chunks folder) trays))
          = chunk_titles title chunk_count).
  { rewrite map_map.
    rewrite (map_ext _ (fun x => fst (fst x))) by (by intros [[t ipp] tp]).
    apply zip3_first; rewrite ?chunk_titles_length; lia. }
  split; [|split].
  - apply Forall_map.
    assert (Hgen : forall (ts : list string) cs tr,
              Forall2 (fun c t => first_item c = Ok t) cs tr ->
              Forall (fun x => pi_author (pack_info author x) = author /\
                               head (pi_image_paths (pack_info author x)) =
                               Some (pi_tray_path (pack_info author x)))
                     (zip3 ts cs tr)).
    { intros ts cs tr H. revert ts.
      induction H as [|c t cs tr Hc _ IH]; intros [|t0 ts]; simpl;
        try constructor; [|apply IH].
      simpl. split; [done|]. destruct c; simpl in *; congruence. }
    by apply Hgen.
  - by rewrite Htitles.
  - intros Hle. rewrite Htitles. unfold chunk_titles.
    assert (chunk_count = 1) as ->; [|done].
    subst chunk_count. symmetry. apply Nat.div_unique with (r := n - 1); lia.
Qed.


(** ** [from_wastickers] and [save]: the name of a loaded pack *)

Lemma path_stem_wastickers (folder name : string) :
  name <> EmptyString -> rfind "/"%char (chars name) = None ->
  path_stem (path_join folder (name +:+ ".wastickers")) = name.
Proof.
  intros Hne Hslash. unfold path_stem.
  rewrite path_name_join, path_name_app by done.
  assert (Hn : chars (path_name name) = chars name).
  { by rewrite path_name_chars, Hslash. }
  rewrite Hn.
  assert (Hlen : 0 < length (chars name)).
  { destruct (chars name) eqn:E; simpl; [|lia]. destruct Hne.
    apply chars_inj. by rewrite E. }
  rewrite rfind_app. change (rfind "."%char (chars ".wastickers")) with (Some 0).
  rewrite length_app. change (length (chars ".wastickers")) with 11.
  destruct (Nat.ltb_spec 0 (length (chars name) + 0)); [|lia].
  destruct (Nat.ltb_spec (length (chars name) + 0) (length (chars name) + 11 - 1));
    [|lia].
  cbv beta iota delta [andb]. rewrite take_app_le by lia.
  rewrite take_ge by lia. apply of_chars_chars.
Qed.

(** X12. A pack loaded from [folder/name.wastickers] remembers
    [name]: saved again into [folder] without a file name it is written to
    the file it came from, so that (when it passes [check]) [save] raises
    [FileExistsError] unless it is told to overwrite. *)
Theorem load_save_same_path (P : Platform) (w : World) (folder name : string)
    (pack : StickerPack) :
  let path := path_join folder (name +:+ ".wastickers") in
  name <> EmptyString -> rfind "/"%char (chars name) = None ->
  folder <> EmptyString ->
  from_wastickers P w path = Ok pack ->
  file_name pack = name /\
  save_path pack w None (Some folder) = path /\
  (check pack = Ok () ->
   save P pack w None (Some folder) false = (Raise (FileExistsError path), pack, w)).
Proof.
  intros path Hne Hslash Hfolder Hload.
  assert (Hfile : is_Some (files w !! path) /\ file_name pack = name /\
                  is_Some (tray_img pack)).
  { unfold from_wastickers, open_zip in Hload.
    destruct (files w !! path) as [[zf|]|]; simpl in Hload; [|done..].
    destruct (utf8_read P zf "author.txt"); simpl in Hload; [|done].
    destruct (utf8_read P zf "title.txt"); simpl in Hload; [|done].
    destruct (zip_read zf "tray.png"); simpl in Hload; [|done].
    destruct (pil_open P _); simpl in Hload; [|done].
    destruct (load_stickers P zf _ []); simpl in Hload; [|done].
    injection Hload as <-. simpl. split; [done|]. split; [|done].
    by apply path_stem_wastickers. }
  destruct Hfile as (Hex & Hname & [tray Htray]).
  assert (Hpath : save_path pack w None (Some folder) = path).
  { unfold save_path, save_file_name. rewrite Hname. simpl.
    destruct name; [done|]. by destruct folder. }
  repeat split; [done..|].
  intros Hc. unfold save. rewrite Hc, Htray.
  change (save_path (set_tray_img pack tray) w None (Some folder))
    with (save_path pack w None (Some folder)).
  rewrite Hpath. rewrite (bool_decide_eq_true_2 _ Hex). simpl.
  do 2 f_equal. destruct pack. simpl in *. by subst.
Qed.

(** ** [from_wastickers]: the stickers of a loaded pack *)

Lemma dict_set_keys {V} (d : list (string * V)) (k : string) (v : V) (x : string) :
  x ∈ (dict_set d k v).*1 <-> x = k \/ x ∈ d.*1.
Proof.
  induction d as [|[k' v'] d IH]; simpl.
  - rewrite list_elem_of_singleton. split; [by left|]. intros [?|H]; [done|].
    by apply elem_of_nil in H.
  - destruct (decide (k' = k)) as [->|Hne]; simpl.
    + rewrite !elem_of_cons. tauto.
    + rewrite !elem_of_cons, IH. tauto.
Qed.

Lemma dict_set_NoDup {V} (d : list (string * V)) (k : string) (v : V) :
  NoDup d.*1 -> NoDup (dict_set d k v).*1.
Proof.
  induction d as [|[k' v'] d IH]; simpl.
  - intros _. apply NoDup_singleton.
  - intros Hnd. apply NoDup_cons in Hnd as [Hk' Hnd].
    destruct (decide (k' = k)) as [->|Hne]; simpl.
    + by apply NoDup_cons.
    + apply NoDup_cons. split; [|by apply IH].
      rewrite dict_set_keys. intros [?|?]; [congruence|done].
Qed.

Lemma dict_set_elem {V} (d : list (string * V)) (k : string) (v : V)
    (p : string * V) :
  p ∈ dict_set d k v -> p = (k, v) \/ p ∈ d.
Proof.
  induction d as [|[k' v'] d IH]; simpl.
  - rewrite list_elem_of_singleton. by left.
  - destruct (decide (k' = k)) as [->|Hne]; rewrite !elem_of_cons.
    + tauto.
    + intros [?|H]; [tauto|]. apply IH in H. tauto.
Qed.

Lemma load_stickers_inv (P : Platform) (zf : Archive) (names : list string)
    (acc res : list (string * Image)) :
  load_stickers P zf names acc = Ok res ->
  NoDup acc.*1 ->
  Forall (fun item => decoded_from P zf item.1 item.2) acc ->
  NoDup res.*1 /\
  (forall x, x ∈ res.*1 <-> x ∈ acc.*1 \/ x ∈ names) /\
  Forall (fun item => decoded_from P zf item.1 item.2) res.
Proof.
  revert acc. induction names as [|n names IH]; intros acc; simpl.
  - intros [= <-] Hnd Hdec. split; [done|]. split; [|done].
    intros x. rewrite elem_of_nil. tauto.
  - unfold zip_read, pil_open.
    destruct (zip_find zf n) as [b|] eqn:Hb; simpl; [|done].
    destruct (image_open P b) as [im|] eqn:Him; simpl; [|done].
    intros Hres Hnd Hdec.
    destruct (IH _ Hres) as (Hnd' & Hkeys & Hdec').
    + by apply dict_set_NoDup.
    + apply Forall_forall. intros p Hp. apply dict_set_elem in Hp as [->|Hp].
      * by exists b.
      * rewrite Forall_forall in Hdec. by apply Hdec.
    + split; [done|]. split; [|done].
      intros x. rewrite Hkeys, dict_set_keys, elem_of_cons. tauto.
Qed.

(** X13. In a pack [from_wastickers] returns, the sticker names are
    exactly the entry names of the archive that end in [.webp], each once
    (a name that the archive lists twice gives one sticker), and every
    sticker image is read from the entry its name refers to; the tray is
    read from [tray.png], title and author from the two text entries. *)
Theorem loaded_stickers (P : Platform) (w : World) (file_path : string)
    (pack : StickerPack) :
  from_wastickers P w file_path = Ok pack ->
  exists zf,
    files w !! file_path = Some (ZipFile zf) /\
    NoDup (sticker_imgs pack).*1 /\
    (forall name, name ∈ (sticker_imgs pack).*1 <->
                  name ∈ namelist zf /\ endswith name ".webp" = true) /\
    Forall (fun item => decoded_from P zf item.1 item.2) (sticker_imgs pack) /\
    (exists tray, tray_img pack = Some tray /\ decoded_from P zf "tray.png" tray) /\
    utf8_read P zf "title.txt" = Ok (title pack) /\
    utf8_read P zf "author.txt" = Ok (author pack).
Proof.
  intros Hload. unfold from_wastickers, open_zip in Hload.
  destruct (files w !! file_path) as [[zf|]|]; simpl in Hload; [|done..].
  destruct (utf8_read P zf "author.txt") as [a|] eqn:Ha; simpl in Hload; [|done].
  destruct (utf8_read P zf "title.txt") as [t|] eqn:Ht; simpl in Hload; [|done].
  unfold zip_read, pil_open in Hload.
  destruct (zip_find zf "tray.png") as [b|] eqn:Hb; simpl in Hload; [|done].
  destruct (image_open P b) as [tray|] eqn:Htray; simpl in Hload; [|done].
  destruct (load_stickers P zf _ []) as [res|] eqn:Hres; simpl in Hload; [|done].
  injection Hload as <-. simpl. exists zf. split; [done|].
  destruct (load_stickers_inv P zf _ [] res Hres) as (Hnd & Hkeys & Hdec).
  { constructor. }
  { constructor. }
  split; [done|]. split; [|split; [done|split; [|done]]].
  - intros name. rewrite Hkeys, list_elem_of_filter, elem_of_nil. tauto.
  - exists tray. split; [done|]. by exists b.
Qed.

(** ** [_recursive_remove] and [clean] *)

Lemma recursive_remove_dir (name : string) (children : list (string * Node))
    (inner : bool) :
  _recursive_remove name (DirNode children) inner =
  if decide (name = ".gitkeep") then (None, Some (DirNode children))
  else
    match remove_children children with
    | (Some e, children') => (Some e, Some (DirNode children'))
    | (None, children') =>
        if inner then
          match children' with
          | [] => (None, None)
          | _ :: _ => (Some DirectoryNotEmpty, Some (DirNode children'))
          end
        else (None, Some (DirNode children'))
    end.
Proof.
  simpl. destruct (decide (name = ".gitkeep")); [done|].
  assert (Hloop : forall cs,
    (fix loop (cs : list (string * Node))
       : option os_error * list (string * Node) :=
       match cs with
       | [] => (None, [])
       | (cname, child) :: rest =>
           match _recursive_remove cname child true with
           | (Some e, rem) => (Some e, remaining cname rem ++ rest)
           | (None, rem) =>
               let '(e, rest') := loop rest in
               (e, remaining cname rem ++ rest')
           end
       end) cs = remove_children cs).
  { induction cs as [|[cname child] rest IH]; [done|].
    simpl. by rewrite IH. }
  by rewrite Hloop.
Qed.

Lemma Node_induction (Q : Node -> Prop) :
  Q FileNode -> Q OtherNode ->
  (forall cs, Forall (fun c => Q c.2) cs -> Q (DirNode cs)) ->
  forall n, Q n.
Proof.
  intros Hf Ho Hd. fix IH 1. intros [|cs|]; [exact Hf| |exact Ho].
  apply Hd. induction cs as [|[name c] cs IHcs]; constructor.
  - apply IH.
  - exact IHcs.
Qed.

Lemma purgeable_dir (name : string) (cs : list (string * Node)) :
  purgeable name (DirNode cs) =
  negb (bool_decide (name = ".gitkeep")) &&
  forallb (fun c => purgeable c.1 c.2) cs.
Proof.
  simpl. f_equal. induction cs as [|[cname c] cs IH]; [done|].
  simpl. by rewrite IH.
Qed.

Lemma settled_or_stuck (c : string * Node) : settled c \/ stuck c.
Proof.
  unfold settled, stuck.
  destruct (kept c.1 c.2), (purgeable c.1 c.2); auto.
Qed.

Lemma kept_not_purgeable (name : string) (n : Node) :
  kept name n = true -> purgeable name n = false.
Proof.
  unfold kept. destruct n as [|cs|]; rewrite ?purgeable_dir; simpl;
    case_bool_decide; simpl; done.
Qed.

Lemma remove_children_spec (cs : list (string * Node)) :
  Forall (fun c => forall name, inner_outcome name c.2) cs ->
  (Forall settled cs ->
   remove_children cs = (None, filter (fun c => kept c.1 c.2 = true) cs)) /\
  (Exists stuck cs ->
   exists cs', remove_children cs = (Some DirectoryNotEmpty, cs')).
Proof.
  induction 1 as [|[cname c] cs Hc _ [IHok IHbad]]; simpl.
  - split; [done|]. intros H. by apply Exists_nil in H.
  - destruct (Hc cname) as (Hp & Hk & Hs). simpl in *. split.
    + intros Hall. apply Forall_cons in Hall as [[Hkept|Hpurge] Hall];
        simpl in *.
      * rewrite (Hk Hkept), (IHok Hall). simpl.
        by rewrite filter_cons_True.
      * rewrite (Hp Hpurge), (IHok Hall). simpl.
        rewrite filter_cons_False; [done|]. simpl.
        destruct (kept cname c) eqn:Hkept; [|done].
        apply kept_not_purgeable in Hkept. congruence.
    + intros Hex.
      destruct (settled_or_stuck (cname, c)) as [[Hkept|Hpurge]|Hstuck];
        simpl in *.
      * apply Exists_cons in Hex as [[Hex _]|Hex]; [simpl in Hex; congruence|].
        destruct (IHbad Hex) as [cs' ->]. rewrite (Hk Hkept). by eexists.
      * apply Exists_cons in Hex as [[_ Hex]|Hex]; [simpl in Hex; congruence|].
        destruct (IHbad Hex) as [cs' ->]. rewrite (Hp Hpurge). by eexists.
      * destruct (Hs Hstuck) as [r ->]. by eexists.
Qed.

Lemma inner_outcomes (n : Node) : forall name, inner_outcome name n.
Proof.
  induction n as [| |cs IH] using Node_induction; intros name.
  - unfold inner_outcome, stuck, kept. simpl.
    destruct (decide (name = ".gitkeep")) as [->|Hne].
    + rewrite bool_decide_eq_true_2 by done. simpl. split; [done|].
      split; [done|]. by intros [? _].
    + rewrite bool_decide_eq_false_2 by done. simpl. split; [done|].
      split; [done|]. by intros [_ ?].
  - unfold inner_outcome, stuck, kept. simpl.
    destruct (decide (name = ".gitkeep")) as [->|Hne].
    + rewrite bool_decide_eq_true_2 by done. simpl. split; [done|].
      split; [done|]. by intros [? _].
    + rewrite bool_decide_eq_false_2 by done. simpl. split; [done|].
      split; [done|]. by intros [? _].
  - destruct (remove_children_spec cs IH) as [Hok Hbad].
    unfold inner_outcome, stuck, kept. simpl fst; simpl snd.
    rewrite recursive_remove_dir, purgeable_dir.
    destruct (decide (name = ".gitkeep")) as [->|Hne].
    + rewrite bool_decide_eq_true_2 by done. simpl. split; [done|].
      split; [done|]. by intros [? _].
    + rewrite bool_decide_eq_false_2 by done. simpl. split; [|split; [done|]].
      * intros Hall. rewrite forallb_forall in Hall.
        rewrite Hok.
        -- assert (Hnil : filter (fun c => kept c.1 c.2 = true) cs = []);
             [|by rewrite Hnil].
           apply filter_nil_Forall. apply Forall_forall. intros c Hc.
           destruct (kept c.1 c.2) eqn:Hk; [|done].
           apply kept_not_purgeable in Hk.
           rewrite Hall in Hk by (by apply list_elem_of_In). done.
        -- apply Forall_forall. intros c Hc. right.
           apply Hall. by apply list_elem_of_In.
      * intros [_ Hnp].
        destruct (decide (Exists stuck cs)) as [Hex|Hnex].
        -- destruct (Hbad Hex) as [cs' ->]. by eexists.
        -- assert (Hall : Forall settled cs).
           { apply Forall_forall. intros c Hc.
             destruct (settled_or_stuck c) as [?|Hs]; [done|].
             destruct Hnex. apply Exists_exists. by exists c. }
           rewrite (Hok Hall).
           destruct (filter _ cs) as [|c0 rest] eqn:Hf; [|by eexists].
           exfalso. apply filter_nil_Forall in Hf.
           assert (forallb (fun c => purgeable c.1 c.2) cs = true); [|congruence].
           apply forallb_forall. intros c Hc. apply list_elem_of_In in Hc.
           rewrite Forall_forall in Hall, Hf.
           destruct (Hall c Hc) as [Hk|?]; [|done].
           rewrite (Hf c Hc) in Hk. done.
Qed.

(** The outcome of a call on the top directory. *)
Lemma remove_top_outcome (name : string) (cs : list (string * Node)) :
  name <> ".gitkeep" ->
  let out := _recursive_remove name (DirNode cs) false in
  (Forall settled cs ->
   out = (None, Some (DirNode (filter (fun c => kept c.1 c.2 = true) cs)))) /\
  (Exists stuck cs ->
   out.1 = Some DirectoryNotEmpty /\ exists cs', out.2 = Some (DirNode cs')).
Proof.
  intros Hne out. subst out. rewrite recursive_remove_dir.
  rewrite decide_False by done.
  destruct (remove_children_spec cs) as [Hok Hbad].
  { apply Forall_forall. intros c _ name'. apply inner_outcomes. }
  split.
  - intros Hall. by rewrite (Hok Hall).
  - intros Hex. destruct (Hbad Hex) as [cs' ->]. simpl. split; [done|].
    by eexists.
Qed.

(** X14. [_recursive_remove] on a directory (not itself named
    [.gitkeep]) with [inner=False]: when every entry of the directory is
    either left alone (it is named [.gitkeep], or is neither a file nor a
    directory) or wholly removable (a file, or a directory of removable
    entries, none named [.gitkeep]), the call returns and leaves the
    directory with exactly the entries left alone, in their order; when
    some entry is a directory that cannot be emptied, the call raises
    [OSError] from [rmdir] and the directory itself stays. *)
Theorem recursive_remove_top (name : string) (cs : list (string * Node)) :
  name <> ".gitkeep" ->
  let out := _recursive_remove name (DirNode cs) false in
  (Forall settled cs ->
   out = (None, Some (DirNode (filter (fun c => kept c.1 c.2 = true) cs)))) /\
  (Exists stuck cs ->
   out.1 = Some DirectoryNotEmpty /\ exists cs', out.2 = Some (DirNode cs')).
Proof.
  intros Hne out.
  destruct (remove_top_outcome name cs Hne) as [Hok Hbad].
  split; [exact Hok|exact Hbad].
Qed.

(** X15. A [.gitkeep] entry inside a subdirectory makes
    [_recursive_remove] raise: the subdirectory is not empty when [rmdir]
    is called on it. Only the [.gitkeep] entries directly in the top
    directory are compatible with a call that returns. *)
Theorem nested_gitkeep_raises (name sub : string) (cs ds : list (string * Node))
    (keep : Node) (inner : bool) :
  name <> ".gitkeep" -> sub <> ".gitkeep" ->
  (sub, DirNode ds) ∈ cs -> (".gitkeep", keep) ∈ ds ->
  (_recursive_remove name (DirNode cs) inner).1 = Some DirectoryNotEmpty.
Proof.
  intros Hne Hsub Hin Hkeep. rewrite recursive_remove_dir.
  rewrite decide_False by done.
  destruct (remove_children_spec cs) as [_ Hbad].
  { apply Forall_forall. intros c _ name'. apply inner_outcomes. }
  destruct Hbad as [cs' ->]; [|done].
  apply Exists_exists. exists (sub, DirNode ds). split; [done|].
  unfold stuck, kept. simpl fst; simpl snd. rewrite purgeable_dir.
  rewrite bool_decide_eq_false_2 by done. split; [done|]. simpl.
  apply not_true_is_false. intros Hall. rewrite forallb_forall in Hall.
  apply list_elem_of_In in Hkeep. specialize (Hall _ Hkeep).
  destruct keep; rewrite ?purgeable_dir in Hall; simpl in Hall;
    discriminate Hall.
Qed.

Lemma lookup_path_cons (cname : string) (c : Node) (rest : list (string * Node))
    (p : list string) :
  lookup_path ((cname, c) :: rest) p =
  match p with
  | [] => None
  | x :: _ =>
      if decide (cname = x) then lookup_path [(cname, c)] p
      else lookup_path rest p
  end.
Proof.
  destruct p as [|x [|y p]]; simpl; [done|..];
    by destruct (decide (cname = x)).
Qed.

Lemma lookup_path_remaining (cname : string) (r : option Node)
    (rest : list (string * Node)) (p : list string) :
  lookup_path (remaining cname r ++ rest) p =
  match p with
  | [] => None
  | x :: _ =>
      if decide (cname = x)
      then match r with
           | Some _ => lookup_path (remaining cname r) p
           | None => lookup_path rest p
           end
      else lookup_path rest p
  end.
Proof.
  destruct r as [c|]; simpl remaining; simpl app.
  - rewrite lookup_path_cons. destruct p; [done|]. done.
  - destruct p; [by destruct rest|]. by destruct (decide (cname = s)).
Qed.

Lemma remove_children_lookup (cs : list (string * Node)) :
  Forall (fun c => keeps_gitkeep c.2) cs ->
  forall p m,
    last p = Some ".gitkeep" ->
    lookup_path cs p = Some m ->
    lookup_path (remove_children cs).2 p = Some m.
Proof.
  induction 1 as [|[cname c] cs Hc _ IH]; intros p m Hlast Hp; [done|].
  simpl in Hc. rewrite lookup_path_cons in Hp.
  destruct p as [|x p']; [done|].
  specialize (Hc cname true (x :: p') m Hlast).
  assert (Hgoal : forall e rest',
            (e, rest') = (remove_children cs) \/ rest' = cs ->
            lookup_path (remaining cname (_recursive_remove cname c true).2
                         ++ rest') (x :: p') = Some m).
  { intros e rest' Hrest. rewrite lookup_path_remaining.
    destruct (decide (cname = x)) as [->|Hne].
    - specialize (Hc Hp).
      destruct (_recursive_remove x c true).2; [done|].
      by destruct p'.
    - destruct Hrest as [Hrest| ->]; [|done].
      specialize (IH _ _ Hlast Hp). by rewrite <- Hrest in IH. }
  simpl. destruct (_recursive_remove cname c true) as [[e|] r]; simpl in *.
  - apply (Hgoal None). by right.
  - destruct (remove_children cs) as [e' rest'] eqn:Hr. simpl.
    apply (Hgoal e'). by left.
Qed.

Lemma keeps_gitkeep_all (n : Node) : keeps_gitkeep n.
Proof.
  induction n as [| |cs IH] using Node_induction;
    intros name inner p m Hlast Hp.
  - destruct p as [|x [|y p]]; simpl in Hp; [done| |].
    + destruct (decide (name = x)) as [->|]; [|done].
      simpl in Hlast. injection Hlast as ->. injection Hp as <-.
      reflexivity.
    + by destruct (decide (name = x)).
  - destruct p as [|x [|y p]]; simpl in Hp; [done| |].
    + destruct (decide (name = x)) as [->|]; [|done].
      simpl in Hlast. injection Hlast as ->. injection Hp as <-.
      reflexivity.
    + by destruct (decide (name = x)).
  - rewrite recursive_remove_dir.
    destruct (decide (name = ".gitkeep")) as [->|Hne]; [done|].
    destruct p as [|x [|y p]]; simpl in Hp; [done| |].
    + destruct (decide (name = x)) as [->|]; [|done].
      simpl in Hlast. congruence.
    + destruct (decide (name = x)) as [->|]; [|done].
      pose proof (remove_children_lookup cs IH (y :: p) m Hlast Hp) as Hl.
      destruct (remove_children cs) as [[e|] cs']; simpl in Hl |- *.
      * by rewrite decide_True.
      * destruct inner; [|by simpl; rewrite decide_True].
        destruct cs' as [|c' cs']; [by destruct p|].
        simpl. by rewrite decide_True.
Qed.

(** X16. Whatever the outcome of [_recursive_remove], every entry
    named [.gitkeep], at any depth below the path it is called on, is still
    there afterwards with everything it contained. *)
Theorem gitkeep_survives (name : string) (n : Node) (inner : bool)
    (p : list string) (m : Node) :
  last p = Some ".gitkeep" ->
  lookup_path [(name, n)] p = Some m ->
  lookup_path (remaining name (_recursive_remove name n inner).2) p = Some m.
Proof. apply keeps_gitkeep_all. Qed.

Lemma find_entry_None (dir : list (string * Node)) (name : string) :
  name ∉ dir.*1 -> find_entry dir name = None.
Proof.
  induction dir as [|[cname c] dir IH]; simpl; [done|].
  intros Hn. apply not_elem_of_cons in Hn as [Hne Hn].
  rewrite decide_False by done. by apply IH.
Qed.

Lemma remove_at_other (name other : string) (dir : list (string * Node)) :
  other <> name ->
  find_entry (remove_at name dir).2 other = find_entry dir other.
Proof.
  intros Hne. induction dir as [|[cname c] dir IH]; simpl; [done|].
  destruct (decide (cname = name)) as [->|Hc].
  - destruct (_recursive_remove name c false) as [e [r|]]; simpl.
    + by rewrite !decide_False.
    + by rewrite decide_False.
  - destruct (remove_at name dir) as [e rest']. simpl in *.
    by rewrite IH.
Qed.

Lemma remove_at_found (name : string) (dir : list (string * Node)) (c : Node) :
  NoDup dir.*1 ->
  find_entry dir name = Some c ->
  (remove_at name dir).1 = (_recursive_remove name c false).1 /\
  find_entry (remove_at name dir).2 name = (_recursive_remove name c false).2.
Proof.
  induction dir as [|[cname c'] dir IH]; simpl; [done|].
  intros Hnd Hf. apply NoDup_cons in Hnd as [Hfresh Hnd].
  destruct (decide (cname = name)) as [->|Hc].
  - injection Hf as ->.
    destruct (_recursive_remove name c false) as [e [r|]]; simpl.
    + by rewrite decide_True.
    + split; [done|]. by apply find_entry_None.
  - destruct (IH Hnd Hf) as [H1 H2].
    destruct (remove_at name dir) as [e rest']. simpl in *.
    by rewrite decide_False.
Qed.

Lemma remove_at_names (name : string) (dir : list (string * Node)) :
  (remove_at name dir).2.*1 `sublist_of` dir.*1.
Proof.
  induction dir as [|[cname c] dir IH]; simpl; [done|].
  destruct (decide (cname = name)) as [->|Hc].
  - destruct (_recursive_remove name c false) as [e [r|]]; simpl.
    + done.
    + by apply sublist_cons.
  - destruct (remove_at name dir) as [e rest']. simpl in *.
    by apply sublist_skip.
Qed.

(** X17. [clean()] in a working directory whose [downloads] and
    [output] entries are directories: no other entry of the working
    directory is touched; when every entry of the two folders is left alone
    or wholly removable, [clean] returns and the two folders hold exactly
    the entries left alone (the [.gitkeep] files); when [downloads] holds a
    directory that cannot be emptied, [clean] raises [OSError] and [output]
    is not cleaned at all. *)
Theorem clean_spec (dir ds os : list (string * Node)) :
  NoDup dir.*1 ->
  find_entry dir "downloads" = Some (DirNode ds) ->
  find_entry dir "output" = Some (DirNode os) ->
  let out := clean dir in
  (forall other, other <> "downloads" -> other <> "output" ->
                 find_entry out.2 other = find_entry dir other) /\
  (Forall settled ds -> Forall settled os ->
   out.1 = None /\
   find_entry out.2 "downloads"
     = Some (DirNode (filter (fun c => kept c.1 c.2 = true) ds)) /\
   find_entry out.2 "output"
     = Some (DirNode (filter (fun c => kept c.1 c.2 = true) os))) /\
  (Exists stuck ds ->
   out.1 = Some DirectoryNotEmpty /\
   find_entry out.2 "output" = Some (DirNode os)).
Proof.
  intros Hnd Hd Ho out. subst out. unfold clean.
  destruct (remove_at_found "downloads" dir _ Hnd Hd) as [He1 Hf1].
  pose proof (remove_at_other "downloads" "output" dir ltac:(done)) as Ho1.
  rewrite Ho in Ho1.
  assert (Hnd1 : NoDup (remove_at "downloads" dir).2.*1).
  { eapply sublist_NoDup; [exact Hnd|apply remove_at_names]. }
  destruct (remove_top_outcome "downloads" ds ltac:(done)) as [Hok1 Hbad1].
  destruct (remove_top_outcome "output" os ltac:(done)) as [Hok2 Hbad2].
  set (r1 := _recursive_remove "downloads" (DirNode ds) false) in *.
  set (r2 := _recursive_remove "output" (DirNode os) false) in *.
  assert (Hx : forall other, other <> "downloads" ->
             find_entry (remove_at "downloads" dir).2 other
             = find_entry dir other).
  { intros other H1. by apply remove_at_other. }
  destruct (remove_at "downloads" dir) as [e1 dir1] eqn:Hr1.
  cbn [fst snd] in He1, Hf1, Ho1, Hnd1, Hx.
  destruct (remove_at_found "output" dir1 _ Hnd1 Ho1) as [He2 Hf2].
  fold r2 in He2, Hf2.
  pose proof (remove_at_other "output" "downloads" dir1 ltac:(done)) as Hd2.
  split; [|split].
  - intros other H1 H2.
    destruct e1; cbn [fst snd]; [by apply Hx|].
    rewrite remove_at_other by done. by apply Hx.
  - intros Hs1 Hs2. rewrite (Hok1 Hs1) in He1, Hf1.
    rewrite (Hok2 Hs2) in He2, Hf2. cbn [fst snd] in He1, Hf1, He2, Hf2.
    subst e1. by rewrite He2, Hf2, Hd2, Hf1.
  - intros Hex. destruct (Hbad1 Hex) as [Hb _].
    rewrite Hb in He1. subst e1. done.
Qed.

(** ** [scale], [square] and [_square] *)

Lemma squarify_as_square (P : Platform) (im : Image) (pixels : Z) :
  resize_exact P ->
  (0 < scaled_width im pixels)%Z -> (0 < scaled_height im pixels)%Z ->
  _squarify P im pixels = (im' ← scale P im pixels; Ok (square P im')).
Proof.
  intros Hre Hw Hh. unfold _squarify, scale, square.
  destruct (Z.max (im_width im) (im_height im) =? 0)%Z; [done|].
  unfold mbind, result_bind. cbv beta iota zeta.
  fold (scaled_width im pixels) (scaled_height im pixels).
  destruct (Hre im _ _ Hw Hh) as [-> ->]. done.
Qed.

(** X18. The two steps of [wasticker.py], [scale] and then
    [square], give what [_squarify] gives in one, as long as [resize]
    returns the size it is asked for; [_square] of [_wastickers.py] is
    [_squarify] under another name. *)
Theorem scale_then_square (P : Platform) (im : Image) (pixels : Z) :
  resize_exact P ->
  (0 < scaled_width im pixels)%Z -> (0 < scaled_height im pixels)%Z ->
  _squarify P im pixels = (im' ← scale P im pixels; Ok (square P im')) /\
  _square P im pixels = _squarify P im pixels.
Proof.
  intros Hre Hw Hh. split.
  - by apply squarify_as_square.
  - reflexivity.
Qed.

Lemma imap_replicate_lookup {A B} (f : nat -> A -> B) (n i : nat) (a : A) :
  i < n -> imap f (replicate n a) !! i = Some (f i a).
Proof.
  intros Hi. rewrite list_lookup_imap, lookup_replicate_2 by done. done.
Qed.

Lemma square_getpixel (P : Platform) (im : Image) (x y : Z) :
  let w := im_width im in
  let h := im_height im in
  let size := Z.max w h in
  (0 <= x < size)%Z -> (0 <= y < size)%Z ->
  getpixel (square P im) x y =
    (if in_box (Z.quot (size - w) 2) (Z.quot (size - h) 2) w h x y
     then convert_rgba P (im_mode im)
            (getpixel im (x - Z.quot (size - w) 2) (y - Z.quot (size - h) 2))
     else [0; 0; 0; 1]%Z).
Proof.
  intros w h size Hx Hy.
  assert (Hsize : (0 < size)%Z) by lia.
  unfold getpixel at 1, square. fold w h size.
  cbn [paste image_new im_data im_width].
  assert (Hi : Z.to_nat (y * size + x) < Z.to_nat (size * size)) by nia.
  rewrite (imap_replicate_lookup _ _ _ _ Hi). cbn [default].
  rewrite Z2Nat.id by nia.
  replace ((y * size + x) mod size)%Z with x.
  2:{ rewrite Z.add_comm, Z.mod_add by lia. by rewrite Z.mod_small. }
  replace ((y * size + x) / size)%Z with y.
  2:{ rewrite Z.add_comm, Z.div_add by lia. rewrite Z.div_small by lia. lia. }
  done.
Qed.

(** X19. [square] centres the image on a canvas of side
    [max(w, h)]: inside the box of the image placed at
    [((size - w) // 2, (size - h) // 2)] a pixel of the result is the pixel
    of the image (converted to "RGBA"), outside it is [(0, 0, 0, 1)]; the
    margins on the two sides of the image differ by one pixel at most, and
    there is no margin along the longer side. *)
Theorem square_pixel (P : Platform) (im : Image) (x y : Z) :
  let w := im_width im in
  let h := im_height im in
  let size := Z.max w h in
  let ox := Z.quot (size - w) 2 in
  let oy := Z.quot (size - h) 2 in
  (0 <= w)%Z -> (0 <= h)%Z ->
  (0 <= x < size)%Z -> (0 <= y < size)%Z ->
  getpixel (square P im) x y =
    (if in_box ox oy w h x y
     then convert_rgba P (im_mode im) (getpixel im (x - ox) (y - oy))
     else [0; 0; 0; 1]%Z) /\
  (0 <= size - w - 2 * ox <= 1)%Z /\ (0 <= size - h - 2 * oy <= 1)%Z /\
  (ox = 0 \/ oy = 0)%Z.
Proof.
  intros w h size ox oy Hw Hh Hx Hy. split.
  - by apply square_getpixel.
  - assert (Hox : (0 <= size - w)%Z) by lia.
    assert (Hoy : (0 <= size - h)%Z) by lia.
    subst ox oy.
    rewrite !Z.quot_div_nonneg by lia.
    pose proof (Z.div_mod (size - w) 2 ltac:(lia)).
    pose proof (Z.mod_pos_bound (size - w) 2 ltac:(lia)).
    pose proof (Z.div_mod (size - h) 2 ltac:(lia)).
    pose proof (Z.mod_pos_bound (size - h) 2 ltac:(lia)).
    repeat split; lia.
Qed.


(** ** The first [_to_snake_case] *)

Lemma snake_v1_chars (text : string) :
  chars (_to_snake_case_v1 text) = map snake_v1_char (chars text).
Proof.
  unfold _to_snake_case_v1, lower.
  rewrite !chars_of_chars, !str_replace_char, !map_map. done.
Qed.

Lemma snake_v1_char_facts (c : ascii) :
  _is_snake_char (snake_v1_char c) = _is_snake_char c /\
  snake_normalise (snake_v1_char c) = snake_normalise c /\
  snake_v1_char (snake_v1_char c) = snake_v1_char c /\
  snake_v1_char c <> " "%char /\ snake_v1_char c <> "-"%char /\
  lower_char (snake_v1_char c) = snake_v1_char c.
Proof.
  destruct c as [[] [] [] [] [] [] [] []]; vm_compute;
    repeat split; discriminate.
Qed.

Lemma snake_body_v1 (l : list ascii) :
  map snake_normalise
    (filter (fun c => _is_snake_char c = true) (map snake_v1_char l))
  = map snake_normalise (filter (fun c => _is_snake_char c = true) l).
Proof.
  induction l as [|c l IH]; [done|]. cbn [map].
  destruct (snake_v1_char_facts c) as (Hs & Hn & _).
  destruct (_is_snake_char c) eqn:E.
  - rewrite !filter_cons_True by congruence. cbn [map]. by rewrite IH, Hn.
  - rewrite !filter_cons_False by congruence. done.
Qed.

(** X21. The [_to_snake_case] of [_wastickers.py] absorbs the
    earlier one of [wastickers.py]: applied to a name the earlier function
    made, it gives what it gives on the text itself. *)
Theorem snake_case_v1_absorbed (text : string) :
  ascii_text text ->
  _to_snake_case (_to_snake_case_v1 text) = _to_snake_case text.
Proof.
  intros _. rewrite !snake_case_body. unfold snake_body.
  by rewrite snake_v1_chars, snake_body_v1.
Qed.

(** X22. The earlier [_to_snake_case] keeps the length of an ASCII
    text, leaves no space, dash or upper-case letter in it (every other
    character, a dot or an exclamation mark for one, stays) and changes
    nothing when applied again. *)
Theorem snake_case_v1_shape (text : string) :
  ascii_text text ->
  length (chars (_to_snake_case_v1 text)) = length (chars text) /\
  Forall (fun c => c <> " "%char /\ c <> "-"%char /\ lower_char c = c)
         (chars (_to_snake_case_v1 text)) /\
  _to_snake_case_v1 (_to_snake_case_v1 text) = _to_snake_case_v1 text.
Proof.
  intros _. rewrite snake_v1_chars. split; [by rewrite length_map|]. split.
  - apply Forall_map, Forall_forall. intros c _.
    destruct (snake_v1_char_facts c) as (_ & _ & _ & H1 & H2 & H3). done.
  - apply chars_inj. rewrite !snake_v1_chars, map_map. apply map_ext.
    intros c. by destruct (snake_v1_char_facts c) as (_ & _ & H & _).
Qed.

(** ** [_chunks] on any list *)

(** X23. [_chunks(lst, n)] with [n > 0] cuts any list into
    [ceil(len(lst) / n)] consecutive pieces that concatenate to the list:
    piece [i] is [lst[i*n : i*n + n]], it is not empty, and every piece
    but the last has [n] elements; with [n = 0] the [range] raises
    [ValueError]. *)
Theorem chunks_partition {A} (lst : list A) (n : nat) :
  _chunks lst 0 = Raise ValueError /\
  (0 < n ->
   exists cs,
     _chunks lst n = Ok cs /\
     concat cs = lst /\
     length cs = (length lst + n - 1) / n /\
     forall i c, cs !! i = Some c ->
       c = take n (drop (i * n) lst) /\
       1 <= length c <= n /\
       (S i < length cs -> length c = n)).
Proof.
  split; [done|]. intros Hn. unfold _chunks.
  destruct (Nat.eqb_spec n 0) as [?|_]; [lia|].
  eexists. split; [done|].
  set (len := length lst).
  destruct (range_from_length n len 0 len Hn ltac:(lia)) as [Hc1 Hc2].
  pose proof (range_from_eq_seq n len 0 len Hn ltac:(lia)) as Hseq.
  fold (py_range len n) in Hc1, Hc2, Hseq.
  set (count := length (py_range len n)) in *.
  assert (Hcount : count = (len + n - 1) / n).
  { destruct (Nat.eq_dec len 0) as [Hz|Hnz].
    - assert (count = 0) as -> by (destruct Hc2; [done|lia]).
      rewrite Hz. symmetry. apply Nat.div_small. lia.
    - apply ceil_unique; lia. }
  split; [|split].
  - unfold py_range, len. rewrite range_from_concat by lia. apply drop_0.
  - rewrite length_map. fold count. done.
  - intros i c Hi. rewrite Hseq in Hi. rewrite !list_lookup_fmap in Hi.
    destruct (seq 0 count !! i) as [k|] eqn:Hk; [|done].
    apply lookup_seq in Hk as [-> Hlt]. simpl in Hi. injection Hi as <-.
    rewrite length_map. fold count.
    assert (Hlast : (count - 1) * n < len) by (destruct Hc2; lia).
    assert (Hin : i * n < len) by nia.
    split; [|split].
    + unfold slice. f_equal. lia.
    + rewrite slice_length. fold len. lia.
    + intros HS. rewrite slice_length. fold len.
      assert (S i * n <= (count - 1) * n) by (apply Nat.mul_le_mono_r; lia).
      lia.
Qed.

Lemma simple_resize_exact : resize_exact simple_platform.
Proof.
  intros im w h _ _. simpl. unfold simple_resize.
  destruct (decide ((w, h) = (im_width im, im_height im))) as [[= -> ->]|_];
    done.
Qed.

(** ** [StickerPack.save]: the tray image afterwards *)


(** ** [from_contents] *)

Lemma load_images_inv (P : Platform) (w : World) (sp_folder : string)
    (stickers : list StickerJson) (acc res : list (string * Image)) :
  load_images P w sp_folder stickers acc = Ok res ->
  NoDup acc.*1 ->
  NoDup res.*1 /\
  (forall x, x ∈ res.*1 <->
             x ∈ acc.*1 \/ Some x ∈ map st_image_file stickers).
Proof.
  revert acc. induction stickers as [|[[name|]] stickers IH]; intros acc;
    simpl; [| |done].
  - intros [= <-] Hnd. split; [done|]. intros x. rewrite elem_of_nil. tauto.
  - destruct (open_image_file P w (path_join sp_folder name)) as [img|];
      simpl; [|done].
    intros Hres Hnd.
    destruct (IH _ Hres (dict_set_NoDup _ _ _ Hnd)) as [Hnd' Hkeys].
    split; [done|]. intros x.
    rewrite Hkeys, dict_set_keys, elem_of_cons. split.
    + intros [[->|?]|?]; auto.
    + intros [?|[[= ->]|?]]; auto.
Qed.

Lemma pack_from_json_inv (P : Platform) (w : World) (folder : string)
    (change_titles : gmap string string) (change_publisher : string)
    (sp : PackJson) (pack : StickerPack) :
  pack_from_json P w folder change_titles change_publisher sp = Ok pack ->
  pack_of_entry change_titles change_publisher sp pack.
Proof.
  unfold pack_from_json, pack_of_entry.
  destruct (sp_identifier sp) as [ident|]; simpl; [|done].
  destruct (sp_stickers sp) as [stickers|]; simpl; [|done].
  destruct (sp_name sp) as [name|]; simpl; [|done].
  intros Hpack. exists name. split; [done|].
  assert (Hauthor : exists a,
            match change_publisher with
            | EmptyString => json_get "publisher" (sp_publisher sp)
            | String _ _ => Ok change_publisher
            end = Ok a /\
            (change_publisher <> EmptyString -> a = change_publisher) /\
            (change_publisher = EmptyString -> sp_publisher sp = Some a)).
  { destruct change_publisher as [|c s].
    - destruct (sp_publisher sp) as [a|]; simpl in *; [|done].
      exists a. done.
    - eexists. split; [done|]. done. }
  destruct Hauthor as (a & Ha & Ha1 & Ha2). rewrite Ha in Hpack.
  simpl in Hpack.
  destruct (sp_tray_image_file sp) as [tray_name|]; simpl in Hpack; [|done].
  destruct (open_image_file P w _) as [tray|]; simpl in Hpack; [|done].
  destruct (load_images P w _ stickers []) as [imgs|] eqn:Himgs;
    simpl in Hpack; [|done].
  injection Hpack as <-. simpl.
  destruct (load_images_inv _ _ _ _ _ _ Himgs) as [Hnd Hkeys]; [constructor|].
  repeat split; try done.
  - intros Hx. apply Hkeys in Hx as [Hx|Hx]; [by apply elem_of_nil in Hx|].
    by exists stickers.
  - intros (stickers' & [= <-] & Hx). apply Hkeys. by right.
Qed.

(** X25. When [from_contents] returns, the folder is a directory,
    its [contents.json] was parsed and lists the packs, and the result
    holds one pack for each entry, in order: titled by the entry's [name],
    or by what [change_titles] maps that name to; by [change_publisher]
    when one is given, else by the entry's [publisher]; with a tray image,
    no file name, and one sticker for each distinct [image_file]. *)
Theorem from_contents_packs (P : Platform) (w : World) (is_dir : string -> bool)
    (json_load : bytes -> option ContentsJson) (folder : string)
    (change_titles : gmap string string) (change_publisher : string)
    (packs : list StickerPack) :
  from_contents P w is_dir json_load folder change_titles change_publisher
    = Ok packs ->
  is_dir folder = true /\
  exists b c sps,
    files w !! path_join folder "contents.json" = Some (PlainFile b) /\
    json_load b = Some c /\
    sticker_packs c = Some sps /\
    Forall2 (pack_of_entry change_titles change_publisher) sps packs.
Proof.
  unfold from_contents, packs_from_contents.
  destruct (is_dir folder); simpl; [|done]. intros H. split; [done|].
  destruct (files w !! path_join folder "contents.json") as [[zf|b]|];
    simpl in H; [done| |done].
  destruct (json_load b) as [c|] eqn:Hc; simpl in H; [|done].
  destruct (sticker_packs c) as [sps|] eqn:Hsps; simpl in H; [|done].
  exists b, c, sps. repeat split; try done.
  apply mapM_result_Forall2 in H.
  eapply Forall2_impl; [exact H|]. intros sp pack. apply pack_from_json_inv.
Qed.

Lemma mapM_result_ext {A B} (f g : A -> result B) (l : list A) :
  (forall x, f x = g x) -> mapM f l = mapM g l.
Proof.
  intros Hfg. induction l as [|x l IH]; simpl; [done|]. by rewrite Hfg, IH.
Qed.

Lemma mapM_result_map {A B C} (f : B -> result C) (g : A -> B) (l : list A) :
  mapM f (map g l) = mapM (fun x => f (g x)) l.
Proof. induction l as [|x l IH]; simpl; [done|]. by rewrite IH. Qed.

(** X26. With a [change_publisher], [from_contents] never looks a
    [publisher] up: a manifest without [publisher] keys gives the packs, or
    the exception, that the manifest with them gives. *)
Theorem publisher_override (P : Platform) (w : World) (folder : string)
    (change_titles : gmap string string) (change_publisher : string)
    (contents : ContentsJson) :
  change_publisher <> EmptyString ->
  packs_from_contents P w folder change_titles change_publisher
    (without_publishers contents)
  = packs_from_contents P w folder change_titles change_publisher contents.
Proof.
  intros Hne. unfold packs_from_contents, without_publishers.
  cbn [sticker_packs].
  destruct (sticker_packs contents) as [sps|]; simpl; [|done].
  rewrite mapM_result_map. apply mapM_result_ext. intros sp.
  unfold pack_from_json. cbn [without_publisher sp_identifier sp_name
    sp_publisher sp_tray_image_file sp_stickers].
  by destruct change_publisher.
Qed.

(** ** The further properties on sample data *)

Lemma save_failure_partial_witness :
  let out := save simple_platform zero_tray_pack busy_world None None true in
  out.1.1 = Raise ZeroDivisionError /\
  exists zf,
    files out.2 !! save_path zero_tray_pack busy_world None None
      = Some (ZipFile zf) /\
    namelist zf `prefix_of` full_names zero_tray_pack /\
    2 <= length zf < length (full_names zero_tray_pack) /\
    take 2 zf = [("title.txt", utf8_encode simple_platform "Cats");
                 ("author.txt", utf8_encode simple_platform "Jo")].
Proof.
  assert (Hout : (save simple_platform zero_tray_pack busy_world None None
                    true).1.1 = Raise ZeroDivisionError)
    by (lazy; reflexivity).
  split; [exact Hout|].
  exact (save_failure_partial simple_platform zero_tray_pack busy_world
           None None true Hout).
Defined.

Lemma save_other_files_witness :
  let w' := (save simple_platform zero_tray_pack busy_world None None true).2 in
  files w' !! "/home/jo/Dogs.wastickers"
    = files busy_world !! "/home/jo/Dogs.wastickers" /\
  cwd w' = cwd busy_world.
Proof.
  apply (save_other_files simple_platform zero_tray_pack busy_world None None
           true "/home/jo/Dogs.wastickers").
  lazy. discriminate.
Defined.


Lemma preprocess_no_images_witness :
  preprocess ["tray.png"; "readme.txt"] "Cats" "Jo" None
  = Raise ZeroDivisionError.
Proof.
  apply (preprocess_no_images ["tray.png"; "readme.txt"] "Cats" "Jo" None).
  vm_compute. reflexivity.
Defined.


Lemma preprocess_metadata_witness :
  exists packs,
    preprocess sample_folder "Cats" "Jo" None = Ok packs /\
    map pi_title packs = ["Cats 1"; "Cats 2"] /\
    map pi_author packs = ["Jo"; "Jo"] /\
    map pi_tray_path packs = ["100.png"; "116.png"].
Proof.
  destruct (preprocess_metadata sample_folder "Cats" "Jo") as (packs & Hp & _).
  - vm_compute. lia.
  - exists packs. split; [exact Hp|].
    vm_compute in Hp. injection Hp as <-. repeat split; reflexivity.
Defined.

Lemma load_save_same_path_witness :
  match from_wastickers simple_platform tiny_world "/home/jo/tiny.wastickers" with
  | Ok pack =>
      file_name pack = "tiny" /\
      save_path pack tiny_world None (Some "/home/jo") = "/home/jo/tiny.wastickers"
  | Raise _ => False
  end.
Proof.
  destruct (from_wastickers simple_platform tiny_world "/home/jo/tiny.wastickers")
    as [pack|e] eqn:Hload.
  - destruct (load_save_same_path simple_platform tiny_world "/home/jo" "tiny"
                pack) as (Hname & Hpath & _).
    + discriminate.
    + reflexivity.
    + discriminate.
    + exact Hload.
    + split; [exact Hname|exact Hpath].
  - lazy in Hload. discriminate Hload.
Defined.

Lemma loaded_stickers_witness :
  match from_wastickers simple_platform tiny_world "/home/jo/tiny.wastickers" with
  | Ok pack =>
      NoDup (sticker_imgs pack).*1 /\
      (sticker_imgs pack).*1 = ["a.webp"; "b.webp"] /\
      length (filter (fun name => endswith name ".webp" = true)
                     (namelist tiny_archive)) = 3
  | Raise _ => False
  end.
Proof.
  destruct (from_wastickers simple_platform tiny_world "/home/jo/tiny.wastickers")
    as [pack|e] eqn:Hload.
  - destruct (loaded_stickers simple_platform tiny_world
                "/home/jo/tiny.wastickers" pack Hload) as (zf & _ & Hnd & _).
    split; [exact Hnd|].
    lazy in Hload. injection Hload as <-. split; reflexivity.
  - lazy in Hload. discriminate Hload.
Defined.

Lemma recursive_remove_top_witness :
  _recursive_remove "downloads" (DirNode sample_downloads) false
  = (None, Some (DirNode [(".gitkeep", FileNode)])).
Proof.
  apply (proj1 (recursive_remove_top "downloads" sample_downloads
                  ltac:(discriminate))).
  repeat constructor; ((left; reflexivity) || (right; reflexivity)).
Defined.

Lemma nested_gitkeep_raises_witness :
  (_recursive_remove "downloads" (DirNode nested_keep) false).1
  = Some DirectoryNotEmpty.
Proof.
  apply (nested_gitkeep_raises "downloads" "pack" nested_keep
           [(".gitkeep", FileNode); ("000.png", FileNode)] FileNode false).
  - discriminate.
  - discriminate.
  - apply list_elem_of_In. simpl. tauto.
  - apply list_elem_of_In. simpl. tauto.
Defined.

Lemma gitkeep_survives_witness :
  lookup_path
    (remaining "downloads"
       (_recursive_remove "downloads" (DirNode nested_keep) false).2)
    ["downloads"; "pack"; ".gitkeep"]
  = Some FileNode.
Proof.
  apply (gitkeep_survives "downloads" (DirNode nested_keep) false
           ["downloads"; "pack"; ".gitkeep"] FileNode).
  - reflexivity.
  - reflexivity.
Defined.

Lemma clean_spec_witness :
  (clean sample_cwd).1 = None /\
  find_entry (clean sample_cwd).2 "downloads"
    = Some (DirNode [(".gitkeep", FileNode)]) /\
  find_entry (clean sample_cwd).2 "output"
    = Some (DirNode [(".gitkeep", FileNode)]).
Proof.
  apply (proj1 (proj2 (clean_spec sample_cwd sample_downloads sample_output
                         ltac:(apply (bool_decide_unpack _); vm_compute; exact I)
                         eq_refl eq_refl))).
  - repeat constructor; ((left; reflexivity) || (right; reflexivity)).
  - repeat constructor; ((left; reflexivity) || (right; reflexivity)).
Defined.

Lemma scale_then_square_witness :
  _squarify simple_platform (blank_image 300 200) 512
    = (im' ← scale simple_platform (blank_image 300 200) 512;
       Ok (square simple_platform im')) /\
  _square simple_platform (blank_image 300 200) 512
    = _squarify simple_platform (blank_image 300 200) 512.
Proof.
  apply (scale_then_square simple_platform (blank_image 300 200) 512
           simple_resize_exact).
  - lazy. reflexivity.
  - lazy. reflexivity.
Defined.

Lemma square_pixel_witness :
  getpixel (square simple_platform (blank_image 3 1)) 0 0 = [0; 0; 0; 1]%Z /\
  getpixel (square simple_platform (blank_image 3 1)) 0 1 = [0; 0; 0; 0]%Z.
Proof.
  split.
  - destruct (square_pixel simple_platform (blank_image 3 1) 0 0) as [H _];
      [simpl; lia..|]. exact H.
  - destruct (square_pixel simple_platform (blank_image 3 1) 0 1) as [H _];
      [simpl; lia..|]. exact H.
Defined.


Lemma snake_case_v1_absorbed_witness :
  _to_snake_case (_to_snake_case_v1 "Gudetama - 2.")
  = _to_snake_case "Gudetama - 2.".
Proof.
  apply (snake_case_v1_absorbed "Gudetama - 2.").
  by apply ascii_text_decide.
Defined.

Lemma snake_case_v1_shape_witness :
  length (chars (_to_snake_case_v1 "Gudetama - 2."))
    = length (chars "Gudetama - 2.") /\
  Forall (fun c => c <> " "%char /\ c <> "-"%char /\ lower_char c = c)
         (chars (_to_snake_case_v1 "Gudetama - 2.")) /\
  _to_snake_case_v1 (_to_snake_case_v1 "Gudetama - 2.")
    = _to_snake_case_v1 "Gudetama - 2.".
Proof.
  apply (snake_case_v1_shape "Gudetama - 2.").
  by apply ascii_text_decide.
Defined.

Lemma chunks_partition_witness :
  exists cs, _chunks [1; 2; 3; 4; 5] 2 = Ok cs /\ length cs = 3.
Proof.
  destruct (proj2 (chunks_partition [1; 2; 3; 4; 5] 2) ltac:(lia))
    as (cs & Hcs & _ & Hlen & _).
  exists cs. split; [exact Hcs|exact Hlen].
Defined.

Lemma from_contents_packs_witness :
  match from_contents simple_platform contents_world (fun _ => true)
          (fun _ => Some sample_contents) "packs" {[ "Bobby" := "Bob" ]} "Jo"
  with
  | Ok packs =>
      Forall2 (pack_of_entry {[ "Bobby" := "Bob" ]} "Jo")
              [ {| sp_identifier := Some "1"; sp_name := Some "Cuppy";
                   sp_publisher := Some "Jane Doe";
                   sp_tray_image_file := Some "tray_Cuppy.png";
                   sp_stickers :=
                     Some [ {| st_image_file := Some "01_Cuppy_smile.webp" |};
                            {| st_image_file := Some "02_Cuppy_lol.webp" |};
                            {| st_image_file := Some "01_Cuppy_smile.webp" |} ] |};
                {| sp_identifier := Some "2"; sp_name := Some "Bobby";
                   sp_publisher := None;
                   sp_tray_image_file := Some "tray.png";
                   sp_stickers := Some [] |} ]
              packs /\
      map title packs = ["Cuppy"; "Bob"] /\
      map (fun pack => (sticker_imgs pack).*1) packs
        = [["01_Cuppy_smile.webp"; "02_Cuppy_lol.webp"]; []]
  | Raise _ => False
  end.
Proof.
  destruct (from_contents simple_platform contents_world (fun _ => true)
              (fun _ => Some sample_contents) "packs" {[ "Bobby" := "Bob" ]}
              "Jo") as [packs|e] eqn:Hload.
  - destruct (from_contents_packs _ _ _ _ _ _ _ _ Hload)
      as (_ & b & c & sps & _ & Hc & Hsps & Hall).
    injection Hc as <-. injection Hsps as <-.
    split; [exact Hall|].
    lazy in Hload. injection Hload as <-. split; reflexivity.
  - lazy in Hload. discriminate Hload.
Defined.

Lemma publisher_override_witness :
  packs_from_contents simple_platform contents_world "packs" ∅ "Jo"
    (without_publishers sample_contents)
  = packs_from_contents simple_platform contents_world "packs" ∅ "Jo"
      sample_contents.
Proof.
  apply (publisher_override simple_platform contents_world "packs" ∅ "Jo"
           sample_contents).
  discriminate.
Defined.
